(** * Bulk push-rule evaluation (synapse/push/bulk_push_rule_evaluator.py)

    A shallow embedding of the module and the properties of its
    rule-matching loop: condition checking with the shared condition cache,
    first-match-wins rule scanning, action filtering, visibility skipping,
    failure propagation and the frame of the evaluator object.

    How the Python is read:
    - the objects the code mutates or could mutate (the evaluator object
      [self], the two dicts of an invocation) live in a heap threaded
      through a state-and-exception monad; the invocations of the
      condition evaluator are recorded there as well, so that they can be
      counted;
    - a raised exception is a [Raise] result; nothing in the module
      catches one;
    - loops are [for_in] over a body that says how the pass ended
      ([continue] or falling off the end, [break], [return]);
    - dicts whose iteration order matters ([rules_by_user]) are kept as
      their items in that order, the others as finite maps;
    - the collaborators (storage, visibility filter) are records of
      functions that answer or raise, and the names the module imports
      ([json], [baserules], [EventTypes], [PushRuleEvaluatorForEvent]) are
      the fields of the class [Imports];
    - the evaluator answers a Python bool, a stored ['enabled'] is a bool
      and an ["_id"] a string, as the interfaces have them;
    - the store hands out rows whose two list fields are JSON text, one
      object per row; [decode_rule_json] overwrites the fields of the row
      object, so rule loading threads the row objects along. *)

From stdpp Require Import base option list gmap strings fin_maps.
From Stdlib Require Import Lia.

Open Scope string_scope.
Open Scope list_scope.
Open Scope nat_scope.

(** ** Exceptions and results of fallible calls *)

Inductive exn : Type :=
  | KeyError (key : string)
  | ValueError (msg : string)
  | TypeError (msg : string)
  | CollaboratorError (msg : string).

Inductive result (A : Type) : Type :=
  | Ok (a : A)
  | Raise (e : exn).
Arguments Ok {A} a.
Arguments Raise {A} e.

Definition is_ok {A} (r : result A) : bool :=
  match r with Ok _ => true | Raise _ => false end.

(** ** Data model *)

(** A condition is a dict; the code here only reads its ["_id"] key and
    hands the whole dict to the evaluator. *)
Record Condition : Type := mkCondition {
  cond_id : option string;
  cond_kind : string;
  cond_params : list (string * string)
}.

(** An action is a string such as ["notify"] or a structured directive
    (a dict such as [{"set_tweak": "sound", "value": "default"}]). *)
Inductive Action : Type :=
  | ActionStr (s : string)
  | ActionDict (kvs : list (string * string)).

#[global] Instance Action_eq_dec : EqDecision Action.
Proof. solve_decision. Defined.

Definition dont_notify : Action := ActionStr "dont_notify".

(** A decoded rule: ['enabled'] may be absent from the dict. *)
Record Rule : Type := mkRule {
  rule_id : string;
  enabled : option bool;
  conditions : list Condition;
  actions : list Action
}.

(** A stored rule row: conditions and actions are still JSON text. *)
Record RawRule : Type := mkRawRule {
  raw_rule_id : string;
  raw_enabled : option bool;
  raw_conditions : string;
  raw_actions : string
}.

(** A field of a row dict: the JSON text it was stored as, or the value
    [decode_rule_json] has put in its place. *)
Inductive field (A : Type) : Type :=
  | Text (s : string)
  | Loaded (a : A).
Arguments Text {A} s.
Arguments Loaded {A} a.

(** A row dict as an object: [decode_rule_json] assigns to its
    ['conditions'] and ['actions'] keys, so the fields change under it. *)
Record Row : Type := mkRow {
  row_rule_id : string;
  row_enabled : option bool;
  row_conditions : field (list Condition);
  row_actions : field (list Action)
}.

(** A row as the store hands it out: both fields are text. *)
Definition stored (r : RawRule) : Row :=
  mkRow (raw_rule_id r) (raw_enabled r)
        (Text (raw_conditions r)) (Text (raw_actions r)).

(** The dict the store answers, as the row objects it holds. *)
Definition stored_rows (rows : gmap string (list RawRule))
    : gmap string (list Row) :=
  (λ l : list RawRule, stored <$> l) <$> rows.

(** Events, as far as this module looks into them. *)
Record Event : Type := mkEvent {
  event_id : string;
  type : string;
  state_key : string;
  content : gmap string string
}.

(** The storage collaborator.  Every call may fail.  [are_guests] answers
    with a dict given by its items; [get_state_for_event] with a dict of
    which only [values()] is read, given in iteration order. *)
Record Store : Type := mkStore {
  bulk_get_push_rules : list string → result (gmap string (list RawRule));
  get_users_in_room : string → result (list string);
  are_guests : list string → result (list (string * bool));
  get_state_for_event : string → result (list Event)
}.

(** The handler collaborator: the visibility filter. *)
Record Handler : Type := mkHandler {
  _filter_events_for_clients :
    list (string * bool) → list Event → result (gmap string (list Event))
}.

(** The dict [rules_by_user] is kept as its items in iteration order, which
    is the order the evaluation loop visits the users in. *)
Record BulkPushRuleEvaluator : Type := mkBulkPushRuleEvaluator {
  room_id : string;
  rules_by_user : list (string * list Rule);
  users_in_room : list string;
  store : Store
}.

(** The evaluator object built once per event. *)
Record PushRuleEvaluatorForEvent : Type := mkPushRuleEvaluatorForEvent {
  evaluator_event : Event;
  room_member_count : nat
}.

(** One invocation of [evaluator.matches]. *)
Record Call : Type := mkCall {
  call_cond : Condition;
  call_uid : string;
  call_display_name : option string
}.

(** Names this module imports and does not define. *)
Class Imports : Type := {
  (** [json.loads] at the ['conditions'] field and at the ['actions'] field *)
  json_loads_conditions : string → result (list Condition);
  json_loads_actions : string → result (list Action);
  (** [baserules.list_with_base_rules] *)
  list_with_base_rules : list Rule → list Rule;
  (** [EventTypes.Member] *)
  EventTypes_Member : string;
  (** [PushRuleEvaluatorForEvent.matches(condition, uid, display_name, None)] *)
  evaluator_matches :
    PushRuleEvaluatorForEvent → Condition → string → option string → result bool
}.

(** ** The mutable objects and the monad threading them *)

(** [self] is the evaluator object; [actions_by_user] and [condition_cache]
    are the two dicts an invocation allocates; [evaluator_calls] records the
    invocations of the evaluator object, oldest first. *)
Record Heap : Type := mkHeap {
  self : BulkPushRuleEvaluator;
  actions_by_user : gmap string (list Action);
  condition_cache : gmap string bool;
  evaluator_calls : list Call
}.

Definition set_actions_by_user (a : gmap string (list Action)) (h : Heap) : Heap :=
  mkHeap (self h) a (condition_cache h) (evaluator_calls h).
Definition set_condition_cache (c : gmap string bool) (h : Heap) : Heap :=
  mkHeap (self h) (actions_by_user h) c (evaluator_calls h).
Definition set_evaluator_calls (l : list Call) (h : Heap) : Heap :=
  mkHeap (self h) (actions_by_user h) (condition_cache h) l.

Definition M (A : Type) : Type := Heap → result A * Heap.

Definition ret {A} (a : A) : M A := λ h, (Ok a, h).
Definition raise {A} (e : exn) : M A := λ h, (Raise e, h).
Definition bind {A B} (m : M A) (f : A → M B) : M B :=
  λ h, match m h with
       | (Ok a, h') => f a h'
       | (Raise e, h') => (Raise e, h')
       end.
(** Waiting for the answer of a collaborator. *)
Definition yield {A} (r : result A) : M A := λ h, (r, h).
Definition gets {A} (f : Heap → A) : M A := λ h, (Ok (f h), h).
Definition modify (f : Heap → Heap) : M unit := λ h, (Ok tt, f h).

Declare Scope heap_scope.
Delimit Scope heap_scope with heap.
Notation "x <- m ;; k" := (bind m (λ x, k))
  (at level 100, m at next level, right associativity) : heap_scope.
Notation "m ;; k" := (bind m (λ _, k))
  (at level 100, right associativity) : heap_scope.
Open Scope heap_scope.

(** How one pass through a loop body ends. *)
Inductive flow (R : Type) : Type :=
  | Continue
  | Break
  | Return (r : R).
Arguments Continue {R}.
Arguments Break {R}.
Arguments Return {R} r.

(** [for x in l: body].  The loop ends with [Continue] when the list is
    exhausted, with [Break] or [Return r] when the body leaves it. *)
Fixpoint for_in {A R} (body : A → M (flow R)) (l : list A) : M (flow R) :=
  match l with
  | [] => ret Continue
  | x :: xs =>
      bind (body x) (λ f,
        match f with
        | Continue => for_in body xs
        | Break => ret Break
        | Return r => ret (Return r)
        end)
  end.

(** Truth value of a Python string. *)
Definition truthy (s : string) : bool := negb (String.eqb s "").

(** [d[k]] on a dict. *)
Definition getitem {V} (d : gmap string V) (k : string) : M V :=
  match d !! k with
  | Some v => ret v
  | None => raise (KeyError k)
  end.

Section Code.
Context `{imports : !Imports}.

(** ** Rule loading *)

(** [json.loads(x)]: [x] has to be a string; a value that has been
    decoded already is refused. *)
Definition loads {A} (parse : string → result A) (x : field A) : result A :=
  match x with
  | Text s => parse s
  | Loaded _ => Raise (TypeError "Expected String or Unicode")
  end.

(** The row dict is decoded in place and handed back: the answer is the
    rule the dict now is, together with the dict as it is left, also when
    the second [json.loads] raises after the first assignment. *)
Definition decode_rule_json (rule : Row) : result Rule * Row :=
  match loads json_loads_conditions (row_conditions rule) with
  | Raise e => (Raise e, rule)
  | Ok conds =>
      let rule1 :=
        mkRow (row_rule_id rule) (row_enabled rule) (Loaded conds)
              (row_actions rule) in
      match loads json_loads_actions (row_actions rule1) with
      | Raise e => (Raise e, rule1)
      | Ok acts =>
          (Ok (mkRule (row_rule_id rule) (row_enabled rule) conds acts),
           mkRow (row_rule_id rule) (row_enabled rule) (Loaded conds)
                 (Loaded acts))
      end
  end.

(** The list comprehension [[decode_rule_json(r) for r in rows]], with the
    row objects as it leaves them. *)
Fixpoint decode_rows (rows : list Row) : result (list Rule) * list Row :=
  match rows with
  | [] => (Ok [], [])
  | r :: rs =>
      match decode_rule_json r with
      | (Raise e, r') => (Raise e, r' :: rs)
      | (Ok rule, r') =>
          match decode_rows rs with
          | (Raise e, rs') => (Raise e, r' :: rs')
          | (Ok rules, rs') => (Ok (rule :: rules), r' :: rs')
          end
      end
  end.

(** Assignment [d[k] = v] on a dict kept as its items. *)
Fixpoint setitem {V} (d : list (string * V)) (k : string) (v : V) : list (string * V) :=
  match d with
  | [] => [(k, v)]
  | (k', v') :: d' =>
      if decide (k' = k) then (k, v) :: d' else (k', v') :: setitem d' k v
  end.

(** The dict comprehension of [_get_rules], over [user_ids] in order.
    [rows] is the dict the store answered, with its row objects as they
    are by now: a user id met again finds the rows of that user as the
    first pass left them. *)
Fixpoint rules_comprehension (rows : gmap string (list Row))
    (user_ids : list string) (acc : list (string * list Rule))
    : result (list (string * list Rule)) :=
  match user_ids with
  | [] => Ok acc
  | uid :: rest =>
      match decode_rows (default [] (rows !! uid)) with
      | (Raise e, _) => Raise e
      | (Ok rules, rows_of_uid) =>
          rules_comprehension (alter (λ _, rows_of_uid) uid rows) rest
            (setitem acc uid (list_with_base_rules rules))
      end
  end.

Definition _get_rules (room : string) (user_ids : list string) (st : Store)
    : result (list (string * list Rule)) :=
  match bulk_get_push_rules st user_ids with
  | Raise e => Raise e
  | Ok rows => rules_comprehension (stored_rows rows) user_ids []
  end.

Definition evaluator_for_room_id (room : string) (st : Store)
    : result BulkPushRuleEvaluator :=
  match get_users_in_room st room with
  | Raise e => Raise e
  | Ok users =>
      match _get_rules room users st with
      | Raise e => Raise e
      | Ok rules => Ok (mkBulkPushRuleEvaluator room rules users st)
      end
  end.

(** ** Condition checking *)

(** The heap once one more invocation of the evaluator is on record. *)
Definition invoked (cond : Condition) (uid : string) (display_name : option string)
    (h : Heap) : Heap :=
  set_evaluator_calls (evaluator_calls h ++ [mkCall cond uid display_name]) h.

(** [evaluator.matches(cond, uid, display_name, None)], recorded. *)
Definition matches (evaluator : PushRuleEvaluatorForEvent) (cond : Condition)
    (uid : string) (display_name : option string) : M bool :=
  λ h, (evaluator_matches evaluator cond uid display_name,
        invoked cond uid display_name h).

(** [_id = cond.get("_id", None)] followed by the test [if _id:]. *)
Definition cache_key (cond : Condition) : option string :=
  match cond_id cond with
  | Some i => if truthy i then Some i else None
  | None => None
  end.

(** [res = cache.get(_id, None)] under [if _id:]; [None] when the condition
    carries no identifier or the cache holds nothing for it. *)
Definition cached_result (cond : Condition) (h : Heap) : option bool :=
  match cache_key cond with
  | Some i => condition_cache h !! i
  | None => None
  end.

(** [if _id: cache[_id] = res] *)
Definition memoize (cond : Condition) (res : bool) (h : Heap) : Heap :=
  match cache_key cond with
  | Some i => set_condition_cache (<[i := res]> (condition_cache h)) h
  | None => h
  end.

(** The body of the loop of [_condition_checker]. *)
Definition condition_step (evaluator : PushRuleEvaluatorForEvent)
    (uid : string) (display_name : option string) (cond : Condition)
    : M (flow bool) :=
  cached <- gets (cached_result cond);;
  match cached with
  | Some false => ret Break
  | Some true => ret Continue
  | None =>
      res <- matches evaluator cond uid display_name;;
      modify (memoize cond res);;
      if res then ret Continue else ret (Return false)
  end.

Definition _condition_checker (evaluator : PushRuleEvaluatorForEvent)
    (conds : list Condition) (uid : string) (display_name : option string)
    : M bool :=
  f <- for_in (condition_step evaluator uid display_name) conds;;
  match f with
  | Return r => ret r
  | Continue | Break => ret true
  end.

(** ** Bulk evaluation *)

(** ['enabled' in rule and not rule['enabled']] *)
Definition disabled (rule : Rule) : bool :=
  match enabled rule with
  | Some b => negb b
  | None => false
  end.

(** [if actions: actions_by_user[uid] = actions] *)
Definition record_actions (uid : string) (acts : list Action) (h : Heap) : Heap :=
  match acts with
  | [] => h
  | _ :: _ => set_actions_by_user (<[uid := acts]> (actions_by_user h)) h
  end.

(** The body of the loop over one user's rules. *)
Definition rule_step (evaluator : PushRuleEvaluatorForEvent)
    (uid : string) (display_name : option string) (rule : Rule)
    : M (flow unit) :=
  if disabled rule then ret Continue
  else
    matched <- _condition_checker evaluator (conditions rule) uid display_name;;
    if matched then
      modify (record_actions uid (filter (λ x, x ≠ dont_notify) (actions rule)));;
      ret Break
    else ret Continue.

(** The body of the loop over the users. *)
Definition user_step (evaluator : PushRuleEvaluatorForEvent)
    (filtered_by_user : gmap string (list Event))
    (display_names : gmap string string)
    (item : string * list Rule) : M (flow unit) :=
  let uid : string := item.1 in
  let rules : list Rule := item.2 in
  let display_name : option string := display_names !! uid in
  filtered <- getitem filtered_by_user uid;;
  if Nat.eqb (length filtered) 0 then ret Continue
  else
    for_in (rule_step evaluator uid display_name) rules;;
    ret Continue.

(** The loop collecting display names from the member state. *)
Definition display_name_step (display_names : gmap string string) (ev : Event)
    : gmap string string :=
  match content ev !! "displayname" with
  | Some nm =>
      if truthy nm && bool_decide (type ev = EventTypes_Member)
      then <[state_key ev := nm]> display_names
      else display_names
  | None => display_names
  end.

Definition action_for_event_by_user (event : Event) (handler : Handler)
    : M (gmap string (list Action)) :=
  modify (set_actions_by_user ∅);;
  this <- gets self;;
  users_dict <- yield (are_guests (store this) (rules_by_user this).*1);;
  filtered_by_user <- yield (_filter_events_for_clients handler users_dict [event]);;
  let evaluator := mkPushRuleEvaluatorForEvent event (length (users_in_room this)) in
  (* a new evaluator object has no invocation on record *)
  modify (set_evaluator_calls []);;
  modify (set_condition_cache ∅);;
  member_state <- yield (get_state_for_event (store this) (event_id event));;
  let display_names := foldl display_name_step ∅ member_state in
  for_in (user_step evaluator filtered_by_user display_names) (rules_by_user this);;
  gets actions_by_user.

End Code.

(** ** Notions the statements use *)

(** The heap an invocation works on once its two dicts and the evaluator
    object have been allocated. *)
Definition fresh_heap (this : BulkPushRuleEvaluator) : Heap := mkHeap this ∅ ∅ [].

(** Number of recorded invocations on conditions carrying identifier [i]. *)
Definition invocations_for (i : string) (calls : list Call) : nat :=
  length (filter (λ c, cache_key (call_cond c) = Some i) calls).

(** [G] holds of the heap after [m] returns and [F e] after it raises [e],
    whenever [G] held before. *)
Definition inv {A} (G : Heap → Prop) (F : exn → Heap → Prop) (m : M A) : Prop :=
  ∀ h, G h →
    match m h with
    | (Ok _, h') => G h'
    | (Raise e, h') => F e h'
    end.

(** Every identifier has at most one invocation on record, and none while
    the cache holds nothing for it. *)
Definition cache_sound (h : Heap) : Prop :=
  ∀ i, invocations_for i (evaluator_calls h) ≤ 1
       ∧ (condition_cache h !! i = None → invocations_for i (evaluator_calls h) = 0).

Definition at_most_once (h : Heap) : Prop :=
  ∀ i, invocations_for i (evaluator_calls h) ≤ 1.

Section Notions.
Context `{imports : !Imports}.

(** What the evaluator answered at a recorded invocation. *)
Definition call_result (evaluator : PushRuleEvaluatorForEvent) (c : Call)
    : result bool :=
  evaluator_matches evaluator (call_cond c) (call_uid c) (call_display_name c).

(** Every recorded invocation returned. *)
Definition calls_answered (evaluator : PushRuleEvaluatorForEvent) (h : Heap) : Prop :=
  Forall (λ c, is_ok (call_result evaluator c) = true) (evaluator_calls h).

(** The last recorded invocation raised [e]; the ones before returned. *)
Definition last_call_raised (evaluator : PushRuleEvaluatorForEvent) (e : exn)
    (h : Heap) : Prop :=
  ∃ pre c, evaluator_calls h = pre ++ [c]
           ∧ Forall (λ c, is_ok (call_result evaluator c) = true) pre
           ∧ call_result evaluator c = Raise e.

(** Every user with an entry in the action dict has a visible event. *)
Definition entries_visible (filtered_by_user : gmap string (list Event))
    (h : Heap) : Prop :=
  ∀ k v, actions_by_user h !! k = Some v →
         ∃ x xs, filtered_by_user !! k = Some (x :: xs).

(** The entry the winning rule's actions leave for its user. *)
Definition entry_of (acts : list Action) : option (list Action) :=
  match filter (λ x, x ≠ dont_notify) acts with
  | [] => None
  | x :: xs => Some (x :: xs)
  end.

End Notions.

(** ** Notions the further properties use *)

Section MoreNotions.
Context `{imports : !Imports}.

(** The row object has been through [decode_rule_json]: its
    ['conditions'] is no longer text. *)
Definition decoded_row (r : Row) : Prop :=
  ∃ conds, row_conditions r = Loaded conds.

(** The row objects during rule loading, against the rows [rows0] the
    store answered: the rows of a user are as stored, or all of them have
    been decoded. *)
Definition rows_state (rows0 : gmap string (list RawRule))
    (rows_now : gmap string (list Row)) : Prop :=
  ∀ u, default [] (rows_now !! u) = stored <$> default [] (rows0 !! u)
       ∨ (Forall decoded_row (default [] (rows_now !! u))
          ∧ length (default [] (rows_now !! u))
            = length (default [] (rows0 !! u))).

(** [ev] is a member event that gives user [k] the display name [nm]. *)
Definition names_member (ev : Event) (k nm : string) : Prop :=
  content ev !! "displayname" = Some nm
  ∧ truthy nm = true
  ∧ type ev = EventTypes_Member
  ∧ state_key ev = k.

(** [acts] is what an enabled rule of user [k] leaves once [dont_notify]
    is dropped, [k] being a user of the mapping with a visible event. *)
Definition entry_from (items : list (string * list Rule))
    (filtered_by_user : gmap string (list Event))
    (k : string) (acts : list Action) : Prop :=
  ∃ rules rule x xs,
    (k, rules) ∈ items
    ∧ rule ∈ rules
    ∧ disabled rule = false
    ∧ acts = filter (λ a, a ≠ dont_notify) (actions rule)
    ∧ filtered_by_user !! k = Some (x :: xs).

(** The invocation [c] asks about a condition of an enabled rule of a
    user of the mapping with a visible event, with that user's display
    name. *)
Definition call_from (items : list (string * list Rule))
    (filtered_by_user : gmap string (list Event))
    (display_names : gmap string string) (c : Call) : Prop :=
  ∃ rules rule x xs,
    (call_uid c, rules) ∈ items
    ∧ rule ∈ rules
    ∧ disabled rule = false
    ∧ call_cond c ∈ conditions rule
    ∧ call_display_name c = display_names !! call_uid c
    ∧ filtered_by_user !! call_uid c = Some (x :: xs).

(** The evaluator answered true. *)
Definition answers_true (r : result bool) : bool :=
  match r with
  | Ok true => true
  | Ok false | Raise _ => false
  end.

(** The conditions a scan of [rules] can reach: those of the enabled
    rules. *)
Definition conditions_of_rules (rules : list Rule) : nat :=
  sum_list ((λ rule, if disabled rule then 0 else length (conditions rule))
              <$> rules).

(** The conditions an invocation can reach: those of the enabled rules of
    the users with a visible event. *)
Definition conditions_of_users (filtered_by_user : gmap string (list Event))
    (items : list (string * list Rule)) : nat :=
  sum_list ((λ item : string * list Rule,
               match filtered_by_user !! item.1 with
               | Some (_ :: _) => conditions_of_rules item.2
               | Some [] | None => 0
               end) <$> items).

(** First-match semantics without a cache, to compare the code with: a
    rule matches when it is enabled and the evaluator answers true for
    each of its conditions; the first rule that matches decides. *)
Definition rule_matches (evaluator : PushRuleEvaluatorForEvent)
    (uid : string) (display_name : option string) (rule : Rule) : bool :=
  negb (disabled rule)
  && forallb (λ c, answers_true (evaluator_matches evaluator c uid display_name))
       (conditions rule).

Definition first_match (evaluator : PushRuleEvaluatorForEvent)
    (uid : string) (display_name : option string) (rules : list Rule)
    : option Rule :=
  List.find (rule_matches evaluator uid display_name) rules.

(** The entry of one user under first-match semantics, added to [acc]. *)
Definition expected_step (evaluator : PushRuleEvaluatorForEvent)
    (filtered_by_user : gmap string (list Event))
    (display_names : gmap string string)
    (acc : gmap string (list Action)) (item : string * list Rule)
    : gmap string (list Action) :=
  match filtered_by_user !! item.1 with
  | Some (_ :: _) =>
      match first_match evaluator item.1 (display_names !! item.1) item.2 with
      | Some rule =>
          match filter (λ a, a ≠ dont_notify) (actions rule) with
          | [] => acc
          | a :: acts => <[item.1 := a :: acts]> acc
          end
      | None => acc
      end
  | Some [] | None => acc
  end.

(** The action dict under first-match semantics. *)
Definition expected_actions (evaluator : PushRuleEvaluatorForEvent)
    (filtered_by_user : gmap string (list Event))
    (display_names : gmap string string)
    (items : list (string * list Rule)) : gmap string (list Action) :=
  foldl (expected_step evaluator filtered_by_user display_names) ∅ items.

(** The entry of one user under first-match semantics. *)
Definition expected_entry (evaluator : PushRuleEvaluatorForEvent)
    (filtered_by_user : gmap string (list Event))
    (display_names : gmap string string)
    (item : string * list Rule) : option (list Action) :=
  match filtered_by_user !! item.1 with
  | Some (_ :: _) =>
      match first_match evaluator item.1 (display_names !! item.1) item.2 with
      | Some rule => entry_of (actions rule)
      | None => None
      end
  | Some [] | None => None
  end.

(** The cache holds no [False]. *)
Definition no_false_cached (h : Heap) : Prop :=
  ∀ i, condition_cache h !! i ≠ Some false.

End MoreNotions.

(** ** Example inputs *)

Module Sample.

(** An evaluator in the manner of the real one: [event_match] compares the
    pattern with the body of the event, [contains_display_name] asks for a
    display name, an unknown kind matches, and the kind [unavailable]
    stands for an evaluator that fails. *)
Definition example_matches (evaluator : PushRuleEvaluatorForEvent)
    (cond : Condition) (uid : string) (display_name : option string)
    : result bool :=
  if String.eqb (cond_kind cond) "event_match" then
    Ok (bool_decide (content (evaluator_event evaluator) !! "body"
                     = (list_to_map (cond_params cond) : gmap string string)
                         !! "pattern"))
  else if String.eqb (cond_kind cond) "contains_display_name" then
    Ok (bool_decide (is_Some display_name))
  else if String.eqb (cond_kind cond) "unavailable" then
    Raise (CollaboratorError "matches")
  else Ok true.

Definition notify : Action := ActionStr "notify".
Definition sound : Action := ActionStr "sound".

Definition base_rule : Rule :=
  mkRule ".m.rule.contains_display_name" None
    [mkCondition None "contains_display_name" []] [notify; sound].

Definition imports : Imports := {|
  json_loads_conditions := λ s,
    if String.eqb s "[]" then Ok []
    else Raise (ValueError "No JSON object could be decoded");
  json_loads_actions := λ s,
    if String.eqb s "[]" then Ok []
    else Raise (ValueError "No JSON object could be decoded");
  list_with_base_rules := λ rules, rules ++ [base_rule];
  EventTypes_Member := "m.room.member";
  evaluator_matches := example_matches
|}.

Definition cond_hello : Condition :=
  mkCondition (Some "c1") "event_match" [("pattern", "hello")].
Definition cond_bye : Condition :=
  mkCondition (Some "c2") "event_match" [("pattern", "bye")].
Definition cond_any : Condition := mkCondition None "room" [].
Definition cond_mention : Condition := mkCondition None "contains_display_name" [].
Definition cond_unavailable : Condition := mkCondition None "unavailable" [].

Definition rule_hello : Rule :=
  mkRule "hello" None [cond_hello] [notify; dont_notify; sound].
Definition rule_bye : Rule := mkRule "bye" None [cond_bye] [notify].
Definition rule_all : Rule := mkRule "all" None [] [notify].
Definition rule_quiet : Rule := mkRule "quiet" (Some true) [cond_any] [dont_notify].
Definition rule_off : Rule := mkRule "off" (Some false) [] [sound].
Definition rule_unavailable : Rule :=
  mkRule "unavailable" None [cond_unavailable] [notify].

Definition hello_event : Event :=
  mkEvent "$1" "m.room.message" "" {[ "body" := "hello" ]}.
Definition member_event : Event :=
  mkEvent "$0" "m.room.member" "@u1" {[ "displayname" := "One" ]}.

Definition good_row : RawRule := mkRawRule "stored" None "[]" "[]".
Definition bad_row : RawRule := mkRawRule "broken" None "[{" "[]".

(** A store that answers, one whose rows hold a malformed rule, and one
    for each call that fails. *)
Definition example_store : Store :=
  mkStore (λ _, Ok {[ "@u1" := [good_row] ]})
          (λ _, Ok ["@u1"; "@u2"])
          (λ uids, Ok ((λ u, (u, false)) <$> uids))
          (λ _, Ok [member_event]).
Definition store_bad_row : Store :=
  mkStore (λ _, Ok {[ "@u1" := [good_row]; "@u2" := [good_row; bad_row] ]})
          (get_users_in_room example_store)
          (are_guests example_store)
          (get_state_for_event example_store).
Definition store_no_rules : Store :=
  mkStore (λ _, Raise (CollaboratorError "bulk_get_push_rules"))
          (get_users_in_room example_store)
          (are_guests example_store)
          (get_state_for_event example_store).
Definition store_no_users : Store :=
  mkStore (bulk_get_push_rules example_store)
          (λ _, Raise (CollaboratorError "get_users_in_room"))
          (are_guests example_store)
          (get_state_for_event example_store).
Definition store_no_guests : Store :=
  mkStore (bulk_get_push_rules example_store)
          (get_users_in_room example_store)
          (λ _, Raise (CollaboratorError "are_guests"))
          (get_state_for_event example_store).
Definition store_no_state : Store :=
  mkStore (bulk_get_push_rules example_store)
          (get_users_in_room example_store)
          (are_guests example_store)
          (λ _, Raise (CollaboratorError "get_state_for_event")).

(** A filter that lets every user see the events, one that hides them from
    [@u1], one whose answer has no entry for [@u1], and one that fails. *)
Definition handler_all : Handler :=
  mkHandler (λ users events, Ok (list_to_map ((λ u, (u.1, events)) <$> users))).
Definition handler_hide_u1 : Handler :=
  mkHandler (λ users events,
    Ok (<["@u1" := []]> (list_to_map ((λ u, (u.1, events)) <$> users)))).
Definition handler_omit_u1 : Handler :=
  mkHandler (λ users events,
    Ok (delete "@u1" (list_to_map ((λ u, (u.1, events)) <$> users)))).
Definition handler_fails : Handler :=
  mkHandler (λ _ _, Raise (CollaboratorError "_filter_events_for_clients")).

Definition room_of (rules : list (string * list Rule)) (st : Store)
    : BulkPushRuleEvaluator :=
  mkBulkPushRuleEvaluator "!room" rules ["@u1"; "@u2"] st.

(** Two users with the same rule on the shared condition [c1]. *)
Definition shared_rules : list (string * list Rule) :=
  [("@u1", [rule_bye]); ("@u2", [rule_bye])].

(** [@u0] has a rule that matches everything; [@u1] has a rule that does not match, a
    disabled one, then [rule_hello], then a rule that matches everything. *)
Definition mixed_rules : list (string * list Rule) :=
  [("@u0", [rule_all]);
   ("@u1", [rule_bye; rule_off; rule_hello; rule_all]);
   ("@u2", [rule_quiet; rule_all])].

Definition unavailable_rules : list (string * list Rule) :=
  [("@u1", [rule_bye]); ("@u2", [rule_unavailable; rule_all])].

Definition example_evaluator : PushRuleEvaluatorForEvent :=
  mkPushRuleEvaluatorForEvent hello_event 2.

#[local] Existing Instance imports.

Definition room : BulkPushRuleEvaluator := room_of mixed_rules example_store.
Definition start : Heap := fresh_heap room.
Definition users_dict : list (string * bool) :=
  [("@u0", false); ("@u1", false); ("@u2", false)].
Definition all_visible : gmap string (list Event) :=
  {[ "@u0" := [hello_event]; "@u1" := [hello_event]; "@u2" := [hello_event] ]}.
Definition u1_hidden : gmap string (list Event) := <["@u1" := []]> all_visible.
Definition u1_omitted : gmap string (list Event) := delete "@u1" all_visible.
Definition names : gmap string string := {[ "@u1" := "One" ]}.

(** The heap when the loop over the users has passed [@u0], when the scan
    of the rules of [@u1] has passed the first two, and when the
    conditions of [rule_hello] have been checked. *)
Definition after_u0 : Heap :=
  (for_in (user_step example_evaluator all_visible names)
     [("@u0", [rule_all])] start).2.
Definition after_two_rules : Heap :=
  (for_in (rule_step example_evaluator "@u1" (Some "One"))
     [rule_bye; rule_off] after_u0).2.
Definition after_check : Heap :=
  (_condition_checker example_evaluator [cond_hello] "@u1" (Some "One")
     after_two_rules).2.

(** The heap when a check has passed [cond_any]. *)
Definition after_any : Heap :=
  (for_in (condition_step example_evaluator "@u1" (Some "One")) [cond_any] start).2.

(** A heap left over from earlier work. *)
Definition stale : Heap :=
  mkHeap room {[ "@u9" := [sound] ]} {[ "c1" := false ]}
    [mkCall cond_any "@u9" None].

(** A member state in which [@u1] was renamed and [@u2] is named only by
    an event that is not a member event. *)
Definition member_state : list Event :=
  [mkEvent "$a" "m.room.member" "@u1" {[ "displayname" := "Uno" ]};
   mkEvent "$b" "m.room.topic" "@u2" {[ "displayname" := "Two" ]};
   member_event].

(** Rule sets in which the one condition with a cache identifier is true
    of the event. *)
Definition rule_mention : Rule := mkRule "mention" None [cond_mention] [notify].
Definition plain_rules : list (string * list Rule) :=
  [("@u1", [rule_off; rule_hello; rule_all]);
   ("@u2", [rule_mention; rule_quiet])].
Definition plain_room : BulkPushRuleEvaluator := room_of plain_rules example_store.
Definition plain_users_dict : list (string * bool) :=
  [("@u1", false); ("@u2", false)].
Definition plain_visible : gmap string (list Event) :=
  {[ "@u1" := [hello_event]; "@u2" := [hello_event] ]}.

(** A heap whose cache holds [False] for [c2], and the heap a check from
    it reaches once it has passed [cond_any]. *)
Definition bye_cached : Heap := mkHeap room ∅ {[ "c2" := false ]} [].
Definition bye_cached_after_any : Heap :=
  (for_in (condition_step example_evaluator "@u2" None) [cond_any] bye_cached).2.

(** A rule on the shared condition [c2], which is false of the event,
    with an action of its own; [@u2] has it before two rules that match. *)
Definition rule_r0 : Rule := mkRule "r0" None [cond_bye] [ActionStr "r0_action"].
Definition shadowed_rules : list (string * list Rule) :=
  [("@u1", [rule_r0]); ("@u2", [rule_r0; rule_hello; rule_all])].

End Sample.

(** ** Laws of the monad and of loops *)

Lemma bind_ok {A B} (m : M A) (f : A → M B) h a h' :
  m h = (Ok a, h') → bind m f h = f a h'.
Proof. intros E. unfold bind. by rewrite E. Qed.

Lemma bind_raise {A B} (m : M A) (f : A → M B) h e h' :
  m h = (Raise e, h') → bind m f h = (Raise e, h').
Proof. intros E. unfold bind. by rewrite E. Qed.

Lemma for_in_app {A R} (body : A → M (flow R)) l1 l2 h :
  for_in body (l1 ++ l2) h =
    match for_in body l1 h with
    | (Ok Continue, h') => for_in body l2 h'
    | other => other
    end.
Proof.
  revert h. induction l1 as [|x l1 IH]; intros h; simpl; [done|].
  unfold bind. destruct (body x h) as [[[| |r]|e] h1]; simpl; auto.
Qed.

Lemma for_in_continue_app {A R} (body : A → M (flow R)) l1 l2 h h1 :
  for_in body l1 h = (Ok Continue, h1) →
  for_in body (l1 ++ l2) h = for_in body l2 h1.
Proof. intros E. by rewrite for_in_app, E. Qed.

Lemma for_in_cons_continue {A R} (body : A → M (flow R)) x l h h1 :
  body x h = (Ok Continue, h1) →
  for_in body (x :: l) h = for_in body l h1.
Proof. intros E. simpl. by rewrite (bind_ok _ _ _ _ _ E). Qed.

Lemma for_in_cons_break {A R} (body : A → M (flow R)) x l h h1 :
  body x h = (Ok Break, h1) →
  for_in body (x :: l) h = (Ok Break, h1).
Proof. intros E. simpl. by rewrite (bind_ok _ _ _ _ _ E). Qed.

Lemma for_in_cons_return {A R} (body : A → M (flow R)) x l h r h1 :
  body x h = (Ok (Return r), h1) →
  for_in body (x :: l) h = (Ok (Return r), h1).
Proof. intros E. simpl. by rewrite (bind_ok _ _ _ _ _ E). Qed.

Lemma for_in_cons_raise {A R} (body : A → M (flow R)) x l h e h1 :
  body x h = (Raise e, h1) →
  for_in body (x :: l) h = (Raise e, h1).
Proof. intros E. simpl. by rewrite (bind_raise _ _ _ _ _ E). Qed.

Lemma inv_ret {A} G F (a : A) : inv G F (ret a).
Proof. by intros h Hh. Qed.

Lemma inv_gets {A} G F (f : Heap → A) : inv G F (gets f).
Proof. by intros h Hh. Qed.

Lemma inv_modify G F (f : Heap → Heap) :
  (∀ h, G h → G (f h)) → inv G F (modify f).
Proof. intros Hf h Hh. simpl. auto. Qed.

Lemma inv_yield {A} (G : Heap → Prop) (F : exn → Heap → Prop) (r : result A) :
  (∀ e h, G h → F e h) → inv G F (yield r).
Proof. intros HF h Hh. unfold yield. destruct r; auto. Qed.

Lemma inv_getitem {V} (G : Heap → Prop) (F : exn → Heap → Prop)
    (d : gmap string V) k :
  (∀ e h, G h → F e h) → inv G F (getitem d k).
Proof. intros HF h Hh. unfold getitem. destruct (d !! k); simpl; auto. Qed.

Lemma inv_bind {A B} G F (m : M A) (f : A → M B) :
  inv G F m → (∀ a, inv G F (f a)) → inv G F (bind m f).
Proof.
  intros Hm Hf h Hh. unfold bind. specialize (Hm h Hh).
  destruct (m h) as [[a|e] h1]; [|done]. by apply Hf.
Qed.

Lemma inv_for_in {A R} G F (body : A → M (flow R)) l :
  (∀ x, x ∈ l → inv G F (body x)) → inv G F (for_in body l).
Proof.
  induction l as [|x l IH]; intros Hb; simpl; [apply inv_ret|].
  apply inv_bind; [apply Hb; left|].
  intros [| |r]; try apply inv_ret.
  apply IH. intros y Hy. apply Hb. by right.
Qed.

Section Proofs.
Context `{imports : !Imports}.
Implicit Types (h : Heap) (cond : Condition) (rule : Rule) (uid : string)
  (display_name : option string) (evaluator : PushRuleEvaluatorForEvent).

(** ** One pass of the condition loop *)

Lemma condition_step_cached_true evaluator uid display_name cond h :
  cached_result cond h = Some true →
  condition_step evaluator uid display_name cond h = (Ok Continue, h).
Proof. intros E. unfold condition_step, bind, gets. by rewrite E. Qed.

Lemma condition_step_cached_false evaluator uid display_name cond h :
  cached_result cond h = Some false →
  condition_step evaluator uid display_name cond h = (Ok Break, h).
Proof. intros E. unfold condition_step, bind, gets. by rewrite E. Qed.

Lemma condition_step_fresh evaluator uid display_name cond h :
  cached_result cond h = None →
  condition_step evaluator uid display_name cond h =
    match evaluator_matches evaluator cond uid display_name with
    | Ok true => (Ok Continue, memoize cond true (invoked cond uid display_name h))
    | Ok false => (Ok (Return false), memoize cond false (invoked cond uid display_name h))
    | Raise e => (Raise e, invoked cond uid display_name h)
    end.
Proof.
  intros E. unfold condition_step, bind, gets, matches. rewrite E.
  by destruct (evaluator_matches _ _ _ _) as [[|]|e].
Qed.

Lemma cached_result_no_key cond h : cache_key cond = None → cached_result cond h = None.
Proof. intros E. unfold cached_result. by rewrite E. Qed.

Lemma _condition_checker_eq evaluator conds uid display_name h :
  _condition_checker evaluator conds uid display_name h =
    match for_in (condition_step evaluator uid display_name) conds h with
    | (Ok (Return r), h') => (Ok r, h')
    | (Ok _, h') => (Ok true, h')
    | (Raise e, h') => (Raise e, h')
    end.
Proof.
  unfold _condition_checker, bind.
  by destruct (for_in _ conds h) as [[[| |r]|e] h1].
Qed.


Lemma evaluator_calls_memoize cond res h :
  evaluator_calls (memoize cond res h) = evaluator_calls h.
Proof. unfold memoize. by destruct (cache_key cond). Qed.

Lemma self_memoize cond res h : self (memoize cond res h) = self h.
Proof. unfold memoize. by destruct (cache_key cond). Qed.

Lemma actions_by_user_memoize cond res h :
  actions_by_user (memoize cond res h) = actions_by_user h.
Proof. unfold memoize. by destruct (cache_key cond). Qed.

Lemma memoize_no_key cond res h : cache_key cond = None → memoize cond res h = h.
Proof. intros E. unfold memoize. by rewrite E. Qed.

(** A condition found false in the cache ends the loop by [break], and the
    statement after the loop answers [True]. *)
Lemma _condition_checker_cached_false evaluator uid display_name pre cond post h h1 :
  for_in (condition_step evaluator uid display_name) pre h = (Ok Continue, h1) →
  cached_result cond h1 = Some false →
  _condition_checker evaluator (pre ++ cond :: post) uid display_name h = (Ok true, h1).
Proof.
  intros Hpre Hc. rewrite _condition_checker_eq, (for_in_continue_app _ _ _ _ _ Hpre).
  by rewrite (for_in_cons_break _ _ _ _ _ (condition_step_cached_false _ _ _ _ _ Hc)).
Qed.

(** A condition freshly evaluated to false ends the check with [False]. *)
Lemma _condition_checker_fresh_false evaluator uid display_name pre cond post h h1 :
  for_in (condition_step evaluator uid display_name) pre h = (Ok Continue, h1) →
  cached_result cond h1 = None →
  evaluator_matches evaluator cond uid display_name = Ok false →
  _condition_checker evaluator (pre ++ cond :: post) uid display_name h =
    (Ok false, memoize cond false (invoked cond uid display_name h1)).
Proof.
  intros Hpre Hc Hm. rewrite _condition_checker_eq, (for_in_continue_app _ _ _ _ _ Hpre).
  assert (condition_step evaluator uid display_name cond h1 =
          (Ok (Return false), memoize cond false (invoked cond uid display_name h1))) as E.
  { by rewrite condition_step_fresh, Hm. }
  by rewrite (for_in_cons_return _ _ _ _ _ _ E).
Qed.

(** ** One pass of the rule loop *)

Lemma rule_step_disabled evaluator uid display_name rule h :
  disabled rule = true →
  rule_step evaluator uid display_name rule h = (Ok Continue, h).
Proof. intros E. unfold rule_step. by rewrite E. Qed.

Lemma rule_step_match evaluator uid display_name rule h h1 :
  disabled rule = false →
  _condition_checker evaluator (conditions rule) uid display_name h = (Ok true, h1) →
  rule_step evaluator uid display_name rule h =
    (Ok Break, record_actions uid (filter (λ x, x ≠ dont_notify) (actions rule)) h1).
Proof. intros E Hc. unfold rule_step. rewrite E. unfold bind. by rewrite Hc. Qed.

Lemma rule_step_no_match evaluator uid display_name rule h h1 :
  disabled rule = false →
  _condition_checker evaluator (conditions rule) uid display_name h = (Ok false, h1) →
  rule_step evaluator uid display_name rule h = (Ok Continue, h1).
Proof. intros E Hc. unfold rule_step. rewrite E. unfold bind. by rewrite Hc. Qed.

Lemma rule_step_raise evaluator uid display_name rule h e h1 :
  disabled rule = false →
  _condition_checker evaluator (conditions rule) uid display_name h = (Raise e, h1) →
  rule_step evaluator uid display_name rule h = (Raise e, h1).
Proof. intros E Hc. unfold rule_step. rewrite E. unfold bind. by rewrite Hc. Qed.

(** The scan of a user's rules stops at the first rule that matches. *)
Lemma rule_loop_first_match evaluator uid display_name pre rule post h h1 h2 :
  for_in (rule_step evaluator uid display_name) pre h = (Ok Continue, h1) →
  disabled rule = false →
  _condition_checker evaluator (conditions rule) uid display_name h1 = (Ok true, h2) →
  for_in (rule_step evaluator uid display_name) (pre ++ rule :: post) h =
    (Ok Break, record_actions uid (filter (λ x, x ≠ dont_notify) (actions rule)) h2).
Proof.
  intros Hpre Hen Hc. rewrite (for_in_continue_app _ _ _ _ _ Hpre).
  apply for_in_cons_break. by apply rule_step_match.
Qed.

(** ** Claims about the condition loop *)

(** C5. Short-circuit evaluation: when the check of a condition sequence
    reaches a condition that is false, be it found false in the cache or
    freshly evaluated to false, the check ends there.  The answer and the
    heap are those of the check of the sequence cut after that condition,
    whatever follows it, and the invocations on record are those made up
    to that condition, plus the one on the condition itself when it was
    not served from the cache: no later condition is ever handed to the
    evaluator. *)
Theorem short_circuit_evaluation evaluator uid display_name pre cond post h h1 :
  for_in (condition_step evaluator uid display_name) pre h = (Ok Continue, h1) →
  cached_result cond h1 = Some false
  ∨ (cached_result cond h1 = None
     ∧ evaluator_matches evaluator cond uid display_name = Ok false) →
  _condition_checker evaluator (pre ++ cond :: post) uid display_name h =
    _condition_checker evaluator (pre ++ [cond]) uid display_name h
  ∧ (cached_result cond h1 = Some false →
       evaluator_calls
         (_condition_checker evaluator (pre ++ cond :: post) uid display_name h).2 =
       evaluator_calls h1)
  ∧ (cached_result cond h1 = None →
       evaluator_calls
         (_condition_checker evaluator (pre ++ cond :: post) uid display_name h).2 =
       evaluator_calls h1 ++ [mkCall cond uid display_name]).
Proof.
  intros Hpre [Hc|[Hc Hm]].
  - rewrite !(_condition_checker_cached_false _ _ _ _ _ _ _ _ Hpre Hc).
    split; [done|]. split; [done|]. intros E. congruence.
  - rewrite !(_condition_checker_fresh_false _ _ _ _ _ _ _ _ Hpre Hc Hm).
    split; [done|]. split; [intros E; congruence|]. intros _. simpl.
    by rewrite evaluator_calls_memoize.
Qed.

(** C9. Vacuous match: on an empty condition sequence the check answers
    true and leaves the heap as it was, so the evaluator is not invoked;
    hence an enabled rule without conditions, once the scan of a user's
    rules reaches it, ends the scan as the matching rule, and only its
    actions are recorded. *)
Theorem empty_conditions_always_match evaluator uid display_name h :
  _condition_checker evaluator [] uid display_name h = (Ok true, h)
  ∧ ∀ pre rule post h0,
      for_in (rule_step evaluator uid display_name) pre h0 = (Ok Continue, h) →
      disabled rule = false →
      conditions rule = [] →
      for_in (rule_step evaluator uid display_name) (pre ++ rule :: post) h0 =
        (Ok Break, record_actions uid (filter (λ x, x ≠ dont_notify) (actions rule)) h).
Proof.
  split; [done|]. intros pre rule post h0 Hpre Hen Hnil.
  apply (rule_loop_first_match _ _ _ _ _ _ _ _ _ Hpre Hen). by rewrite Hnil.
Qed.

(** ** What the loops leave alone *)

Lemma condition_step_frame evaluator uid display_name cond h :
  self (condition_step evaluator uid display_name cond h).2 = self h
  ∧ actions_by_user (condition_step evaluator uid display_name cond h).2
    = actions_by_user h.
Proof.
  destruct (cached_result cond h) as [[|]|] eqn:E.
  - by rewrite condition_step_cached_true.
  - by rewrite condition_step_cached_false.
  - rewrite condition_step_fresh by done.
    destruct (evaluator_matches _ _ _ _) as [[|]|e]; simpl;
      by rewrite ?self_memoize, ?actions_by_user_memoize.
Qed.

Lemma inv_condition_step_frame (G : Heap → Prop) (F : exn → Heap → Prop)
    evaluator uid display_name cond :
  (∀ h h', self h' = self h → actions_by_user h' = actions_by_user h →
           G h → G h' ∧ ∀ e, F e h') →
  inv G F (condition_step evaluator uid display_name cond).
Proof.
  intros HG h Hh.
  destruct (condition_step_frame evaluator uid display_name cond h) as [Hs Ha].
  destruct (HG _ _ Hs Ha Hh) as [HG' HF'].
  destruct (condition_step _ _ _ _ h) as [[f|e] h']; simpl in *; auto.
Qed.

Lemma inv__condition_checker G F evaluator conds uid display_name :
  (∀ cond, inv G F (condition_step evaluator uid display_name cond)) →
  inv G F (_condition_checker evaluator conds uid display_name).
Proof.
  intros Hc. unfold _condition_checker. apply inv_bind.
  - apply inv_for_in. auto.
  - intros [| |r]; apply inv_ret.
Qed.

Lemma inv_rule_step G F evaluator uid display_name rule :
  (∀ acts h, G h → G (record_actions uid acts h)) →
  (∀ cond, inv G F (condition_step evaluator uid display_name cond)) →
  inv G F (rule_step evaluator uid display_name rule).
Proof.
  intros Hrec Hc. unfold rule_step. destruct (disabled rule); [apply inv_ret|].
  apply inv_bind; [by apply inv__condition_checker|].
  intros [|]; [|apply inv_ret].
  apply inv_bind; [apply inv_modify; auto|]. intros _. apply inv_ret.
Qed.

Lemma inv_user_step G F evaluator filtered_by_user display_names
    (item : string * list Rule) :
  (∀ e h, G h → F e h) →
  (∀ acts h, (∃ x xs, filtered_by_user !! item.1 = Some (x :: xs)) →
             G h → G (record_actions item.1 acts h)) →
  (∀ uid display_name cond,
     inv G F (condition_step evaluator uid display_name cond)) →
  inv G F (user_step evaluator filtered_by_user display_names item).
Proof.
  intros HF Hrec Hc. unfold user_step, getitem.
  destruct (filtered_by_user !! item.1) as [filtered|] eqn:E.
  - intros h Hh. rewrite (bind_ok _ _ h filtered h) by done.
    destruct filtered as [|x xs]; simpl; [done|].
    revert h Hh. apply inv_bind; [|intros _; apply inv_ret].
    apply inv_for_in. intros rule _. apply inv_rule_step; [|auto].
    intros acts h. apply Hrec. eauto.
  - intros h Hh. rewrite (bind_raise _ _ h (KeyError item.1) h) by done. auto.
Qed.

Lemma inv_user_loop G F evaluator filtered_by_user display_names
    (items : list (string * list Rule)) :
  (∀ e h, G h → F e h) →
  (∀ item acts h, item ∈ items →
     (∃ x xs, filtered_by_user !! item.1 = Some (x :: xs)) →
     G h → G (record_actions item.1 acts h)) →
  (∀ uid display_name cond,
     inv G F (condition_step evaluator uid display_name cond)) →
  inv G F (for_in (user_step evaluator filtered_by_user display_names) items).
Proof.
  intros HF Hrec Hc. apply inv_for_in. intros item Hin.
  apply inv_user_step; auto.
Qed.

(** The invocation unfolded: the collaborators are asked in turn, and the
    loop over the users starts from freshly allocated dicts. *)
Lemma action_for_event_by_user_eq event handler h :
  action_for_event_by_user event handler h =
    match are_guests (store (self h)) (rules_by_user (self h)).*1 with
    | Raise e => (Raise e, set_actions_by_user ∅ h)
    | Ok users_dict =>
        match _filter_events_for_clients handler users_dict [event] with
        | Raise e => (Raise e, set_actions_by_user ∅ h)
        | Ok filtered_by_user =>
            match get_state_for_event (store (self h)) (event_id event) with
            | Raise e => (Raise e, fresh_heap (self h))
            | Ok member_state =>
                match for_in
                        (user_step
                           (mkPushRuleEvaluatorForEvent event
                              (length (users_in_room (self h))))
                           filtered_by_user
                           (foldl display_name_step ∅ member_state))
                        (rules_by_user (self h)) (fresh_heap (self h)) with
                | (Ok _, h') => (Ok (actions_by_user h'), h')
                | (Raise e, h') => (Raise e, h')
                end
            end
        end
    end.
Proof.
  unfold action_for_event_by_user, bind, modify, gets, yield. simpl.
  destruct (are_guests _ _) as [users_dict|e]; [|done].
  destruct (_filter_events_for_clients _ _ _) as [filtered_by_user|e]; [|done].
  simpl. destruct (get_state_for_event _ _) as [member_state|e]; [|done].
  unfold fresh_heap. simpl.
  by destruct (for_in _ _ _) as [[f|e] h'].
Qed.

(** ** The frame of an invocation *)

Lemma self_record_actions uid acts h : self (record_actions uid acts h) = self h.
Proof. by destruct acts. Qed.

Lemma evaluator_calls_record_actions uid acts h :
  evaluator_calls (record_actions uid acts h) = evaluator_calls h.
Proof. by destruct acts. Qed.

Lemma condition_cache_record_actions uid acts h :
  condition_cache (record_actions uid acts h) = condition_cache h.
Proof. by destruct acts. Qed.

Lemma user_loop_self evaluator filtered_by_user display_names items h :
  self (for_in (user_step evaluator filtered_by_user display_names) items h).2 = self h.
Proof.
  pose proof (inv_user_loop (λ h', self h' = self h) (λ _ h', self h' = self h)
                evaluator filtered_by_user display_names items) as Hinv.
  unfold inv in Hinv. specialize (Hinv ltac:(auto)).
  specialize (Hinv ltac:(by intros; rewrite self_record_actions)).
  assert (∀ uid display_name cond,
            inv (λ h', self h' = self h) (λ _ h', self h' = self h)
                (condition_step evaluator uid display_name cond)) as Hc.
  { intros. apply inv_condition_step_frame. intros h0 h' Hs _ Hh0.
    split; [|intros _]; congruence. }
  specialize (Hinv Hc h eq_refl).
  by destruct (for_in _ items h) as [[f|e] h'].
Qed.

(** C10. Frame of bulk evaluation: an invocation leaves the evaluator
    object as it found it (room id, rule sets with their conditions and
    actions, member list); its answer depends on the heap through that
    object only, not on whatever dicts or invocation records were there
    before, since the action dict and the condition cache are allocated
    anew; so a later event evaluated by the same evaluator is answered as
    if no event had been evaluated before, and what is returned is the
    action dict of this invocation. *)
Theorem bulk_evaluation_frame event handler h :
  self (action_for_event_by_user event handler h).2 = self h
  ∧ (∀ h', self h' = self h →
       (action_for_event_by_user event handler h').1 =
       (action_for_event_by_user event handler h).1)
  ∧ (∀ event' handler',
       (action_for_event_by_user event' handler'
          (action_for_event_by_user event handler h).2).1 =
       (action_for_event_by_user event' handler' h).1)
  ∧ (∀ res, (action_for_event_by_user event handler h).1 = Ok res →
       res = actions_by_user (action_for_event_by_user event handler h).2).
Proof.
  assert (∀ ev hd h0, self (action_for_event_by_user ev hd h0).2 = self h0) as Hself.
  { intros ev hd h0. rewrite action_for_event_by_user_eq.
    destruct (are_guests _ _) as [users_dict|e]; [|done].
    destruct (_filter_events_for_clients _ _ _) as [filtered_by_user|e]; [|done].
    destruct (get_state_for_event _ _) as [member_state|e]; [|done].
    pose proof (user_loop_self
      (mkPushRuleEvaluatorForEvent ev (length (users_in_room (self h0))))
      filtered_by_user (foldl display_name_step ∅ member_state)
      (rules_by_user (self h0)) (fresh_heap (self h0))) as Hl.
    by destruct (for_in _ _ _) as [[f|e] h']. }
  assert (∀ ev hd h0 h', self h' = self h0 →
            (action_for_event_by_user ev hd h').1 =
            (action_for_event_by_user ev hd h0).1) as Hdep.
  { intros ev hd h0 h' E. rewrite !action_for_event_by_user_eq, E.
    destruct (are_guests _ _) as [users_dict|e]; [|done].
    destruct (_filter_events_for_clients _ _ _) as [filtered_by_user|e]; [|done].
    by destruct (get_state_for_event _ _) as [member_state|e]. }
  split; [apply Hself|]. split; [intros h'; apply Hdep|].
  split; [intros ev hd; apply Hdep, Hself|].
  intros res. rewrite action_for_event_by_user_eq.
  destruct (are_guests _ _) as [users_dict|e]; [|done].
  destruct (_filter_events_for_clients _ _ _) as [filtered_by_user|e]; [|done].
  destruct (get_state_for_event _ _) as [member_state|e]; [|done].
  destruct (for_in _ _ _) as [[f|e] h']; simpl; congruence.
Qed.

(** ** Invocations and the cache *)

Lemma invocations_for_snoc i calls c :
  invocations_for i (calls ++ [c]) =
    invocations_for i calls
    + (if decide (cache_key (call_cond c) = Some i) then 1 else 0).
Proof.
  unfold invocations_for. rewrite filter_app, length_app. f_equal.
  rewrite filter_cons, filter_nil. by case_decide.
Qed.

Lemma cache_sound_at_most_once h : cache_sound h → at_most_once h.
Proof. intros Hh i. apply Hh. Qed.


Lemma cache_sound_condition_step evaluator uid display_name cond :
  inv cache_sound (λ _, at_most_once)
      (condition_step evaluator uid display_name cond).
Proof.
  intros h Hh. destruct (cached_result cond h) as [[|]|] eqn:E.
  - by rewrite condition_step_cached_true.
  - by rewrite condition_step_cached_false.
  - rewrite condition_step_fresh by done.
    assert (at_most_once (invoked cond uid display_name h)) as Hone.
    { intros i. simpl. rewrite invocations_for_snoc. simpl.
      destruct (Hh i) as [Hle Hzero]. case_decide as Hk; [|lia].
      unfold cached_result in E. rewrite Hk in E. rewrite (Hzero E). lia. }
    assert (∀ res, cache_sound (memoize cond res (invoked cond uid display_name h)))
      as Hsound.
    { intros res i. rewrite evaluator_calls_memoize. split; [apply Hone|].
      simpl. rewrite invocations_for_snoc. simpl.
      unfold memoize. destruct (Hh i) as [Hle Hzero].
      destruct (cache_key cond) as [k|] eqn:Hk; simpl.
      - destruct (decide (k = i)) as [->|Hne].
        + rewrite lookup_insert_eq. done.
        + rewrite lookup_insert_ne by done. intros Hnone.
          rewrite (Hzero Hnone). destruct (decide (Some k = Some i)); [congruence|done].
      - intros Hnone. rewrite (Hzero Hnone). by destruct (decide (None = Some i)). }
    destruct (evaluator_matches _ _ _ _) as [[|]|e]; auto.
Qed.

Lemma user_loop_at_most_once evaluator filtered_by_user display_names items h :
  cache_sound h →
  at_most_once (for_in (user_step evaluator filtered_by_user display_names) items h).2.
Proof.
  intros Hh.
  pose proof (inv_user_loop cache_sound (λ _, at_most_once)
                evaluator filtered_by_user display_names items) as Hinv.
  specialize (Hinv ltac:(intros; by apply cache_sound_at_most_once)).
  assert (∀ (item : string * list Rule) acts h0, item ∈ items →
            (∃ x xs, filtered_by_user !! item.1 = Some (x :: xs)) →
            cache_sound h0 → cache_sound (record_actions item.1 acts h0)) as Hrec.
  { intros item acts h0 _ _ H0 i.
    rewrite evaluator_calls_record_actions, condition_cache_record_actions.
    apply H0. }
  specialize (Hinv Hrec (cache_sound_condition_step evaluator) h Hh).
  destruct (for_in _ items h) as [[f|e] h']; simpl; [|done].
  by apply cache_sound_at_most_once.
Qed.

Lemma cache_sound_fresh_heap this : cache_sound (fresh_heap this).
Proof. intros i. simpl. unfold invocations_for. simpl. split; [lia|done]. Qed.

(** A condition without identifier that the check reaches is handed to
    the evaluator, whatever the cache holds, and leaves the cache alone. *)
Lemma _condition_checker_no_key evaluator uid display_name pre cond post h h1 :
  for_in (condition_step evaluator uid display_name) pre h = (Ok Continue, h1) →
  cache_key cond = None →
  _condition_checker evaluator (pre ++ cond :: post) uid display_name h =
    match evaluator_matches evaluator cond uid display_name with
    | Ok true =>
        _condition_checker evaluator post uid display_name
          (invoked cond uid display_name h1)
    | Ok false => (Ok false, invoked cond uid display_name h1)
    | Raise e => (Raise e, invoked cond uid display_name h1)
    end.
Proof.
  intros Hpre Hk. rewrite _condition_checker_eq, (for_in_continue_app _ _ _ _ _ Hpre).
  pose proof (condition_step_fresh evaluator uid display_name cond h1
                (cached_result_no_key _ _ Hk)) as E.
  rewrite !memoize_no_key in E by done.
  destruct (evaluator_matches _ _ _ _) as [[|]|e].
  - by rewrite (for_in_cons_continue _ _ _ _ _ E), <- _condition_checker_eq.
  - by rewrite (for_in_cons_return _ _ _ _ _ _ E).
  - by rewrite (for_in_cons_raise _ _ _ _ _ _ E).
Qed.

(** C3. Within one invocation of [action_for_event_by_user], whatever
    dicts were around before, the evaluator is invoked at most once for
    the conditions carrying a given cache identifier, over all rules and
    all users; and a condition without cache identifier that a check
    reaches is handed to the evaluator once at that occurrence, whatever
    the cache holds, and nothing is stored for it: the cache after the
    invocation is the cache before it. *)
Theorem evaluator_invocations_per_identifier :
  (∀ this stale_actions stale_cache event handler i,
     invocations_for i
       (evaluator_calls
          (action_for_event_by_user event handler
             (mkHeap this stale_actions stale_cache [])).2) ≤ 1)
  ∧ (∀ evaluator uid display_name pre cond post h h1,
       for_in (condition_step evaluator uid display_name) pre h = (Ok Continue, h1) →
       cache_key cond = None →
       condition_cache (invoked cond uid display_name h1) = condition_cache h1
       ∧ evaluator_calls (invoked cond uid display_name h1) =
           evaluator_calls h1 ++ [mkCall cond uid display_name]
       ∧ _condition_checker evaluator (pre ++ cond :: post) uid display_name h =
           match evaluator_matches evaluator cond uid display_name with
           | Ok true =>
               _condition_checker evaluator post uid display_name
                 (invoked cond uid display_name h1)
           | Ok false => (Ok false, invoked cond uid display_name h1)
           | Raise e => (Raise e, invoked cond uid display_name h1)
           end).
Proof.
  split.
  - intros this stale_actions stale_cache event handler i.
    rewrite action_for_event_by_user_eq. simpl.
    assert (invocations_for i [] ≤ 1) as Hnil by (unfold invocations_for; simpl; lia).
    destruct (are_guests _ _) as [users_dict|e]; [|done].
    destruct (_filter_events_for_clients _ _ _) as [filtered_by_user|e]; [|done].
    destruct (get_state_for_event _ _) as [member_state|e]; [|done].
    pose proof (user_loop_at_most_once
      (mkPushRuleEvaluatorForEvent event (length (users_in_room this)))
      filtered_by_user (foldl display_name_step ∅ member_state)
      (rules_by_user this) (fresh_heap this) (cache_sound_fresh_heap this) i) as Hl.
    by destruct (for_in _ _ _) as [[f|e] h'].
  - intros evaluator uid display_name pre cond post h h1 Hpre Hk.
    split; [done|]. split; [done|]. by apply _condition_checker_no_key.
Qed.

(** ** Failures *)

Lemma decode_rule_json_stored_is_ok (row : RawRule) :
  is_ok (decode_rule_json (stored row)).1 =
    is_ok (json_loads_conditions (raw_conditions row))
    && is_ok (json_loads_actions (raw_actions row)).
Proof.
  unfold decode_rule_json. simpl.
  destruct (json_loads_conditions _); [|done]. simpl.
  by destruct (json_loads_actions _).
Qed.

Lemma decode_rows_raise rows (row : Row) :
  row ∈ rows →
  is_ok (decode_rule_json row).1 = false →
  is_ok (decode_rows rows).1 = false.
Proof.
  induction rows as [|r rows IH]; intros Hin Hbad; [by apply elem_of_nil in Hin|].
  simpl. destruct (decode_rule_json r) as [[rule|e] r'] eqn:Er; [|done].
  apply elem_of_cons in Hin as [->|Hin]; [by rewrite Er in Hbad|].
  specialize (IH Hin Hbad). by destruct (decode_rows rows) as [[rules|e] rows'].
Qed.

Lemma lookup_stored_rows (rows : gmap string (list RawRule)) uid :
  default [] (stored_rows rows !! uid) = stored <$> default [] (rows !! uid).
Proof. unfold stored_rows. rewrite lookup_fmap. by destruct (rows !! uid). Qed.

Lemma rules_comprehension_raise rows_now user_ids uid (raws : list RawRule) row acc :
  uid ∈ user_ids →
  default [] (rows_now !! uid) = stored <$> raws →
  row ∈ raws →
  is_ok (decode_rule_json (stored row)).1 = false →
  is_ok (rules_comprehension rows_now user_ids acc) = false.
Proof.
  revert rows_now acc.
  induction user_ids as [|u user_ids IH]; intros rows_now acc Hin Hst Hrow Hbad;
    [by apply elem_of_nil in Hin|].
  simpl. destruct (decode_rows (default [] (rows_now !! u)))
    as [[rules|e] rows_of_u] eqn:Eu; [|done].
  destruct (decide (u = uid)) as [->|Hne].
  - rewrite Hst in Eu.
    pose proof (decode_rows_raise (stored <$> raws) (stored row)
                  (list_elem_of_fmap_2 stored _ _ Hrow) Hbad) as Hc.
    by rewrite Eu in Hc.
  - apply elem_of_cons in Hin as [->|Hin]; [done|].
    apply IH; [done| |done|done]. by rewrite lookup_alter_ne.
Qed.

Lemma calls_answered_condition_step evaluator uid display_name cond :
  inv (calls_answered evaluator)
      (λ e h, calls_answered evaluator h ∨ last_call_raised evaluator e h)
      (condition_step evaluator uid display_name cond).
Proof.
  intros h Hh. destruct (cached_result cond h) as [[|]|] eqn:E.
  - by rewrite condition_step_cached_true.
  - by rewrite condition_step_cached_false.
  - rewrite condition_step_fresh by done.
    destruct (evaluator_matches evaluator cond uid display_name) as [res|e] eqn:Em.
    + assert (calls_answered evaluator (memoize cond res (invoked cond uid display_name h))).
      { unfold calls_answered. rewrite evaluator_calls_memoize. simpl.
        apply Forall_app. split; [done|]. apply Forall_singleton.
        unfold call_result. simpl. by rewrite Em. }
      by destruct res.
    + right. exists (evaluator_calls h), (mkCall cond uid display_name).
      split; [done|]. split; [done|]. done.
Qed.

Lemma user_loop_calls_answered evaluator filtered_by_user display_names items h :
  calls_answered evaluator h →
  match for_in (user_step evaluator filtered_by_user display_names) items h with
  | (Ok _, h') => calls_answered evaluator h'
  | (Raise e, h') => calls_answered evaluator h' ∨ last_call_raised evaluator e h'
  end.
Proof.
  apply (inv_user_loop (calls_answered evaluator)
           (λ e h, calls_answered evaluator h ∨ last_call_raised evaluator e h)).
  - auto.
  - intros item acts h0 _ _ H0. unfold calls_answered.
    by rewrite evaluator_calls_record_actions.
  - apply calls_answered_condition_step.
Qed.

Lemma failed_call_is_last evaluator e e' h c :
  calls_answered evaluator h ∨ last_call_raised evaluator e h →
  c ∈ evaluator_calls h →
  call_result evaluator c = Raise e' →
  last_call_raised evaluator e h ∧ e' = e.
Proof.
  intros [Hall|(pre & c0 & Hcalls & Hpre & Hc0)] Hin Hc.
  - unfold calls_answered in Hall. rewrite Forall_forall in Hall.
    specialize (Hall c Hin). by rewrite Hc in Hall.
  - rewrite Hcalls in Hin. apply elem_of_app in Hin as [Hin|Hin].
    + rewrite Forall_forall in Hpre. specialize (Hpre c Hin). by rewrite Hc in Hpre.
    + apply list_elem_of_singleton in Hin as ->.
      split; [by exists pre, c0|]. congruence.
Qed.

(** C8. Failure propagation.  Rule loading: a failing batched read is
    raised on; a stored row of a requested user whose condition list or
    action list does not decode makes the whole of [_get_rules] raise, so
    no rule is skipped and no partial mapping comes back; and
    [evaluator_for_room_id] raises whatever the member lookup or rule
    loading raised.  Bulk evaluation: a failure of the guest lookup, of
    the visibility filter or of the state lookup is the outcome of the
    invocation, and so is the exception of any invocation of the
    condition evaluator that raised; what is raised carries no action
    dict. *)
Theorem failures_propagate :
  (∀ room user_ids st e,
     bulk_get_push_rules st user_ids = Raise e →
     _get_rules room user_ids st = Raise e)
  ∧ (∀ room user_ids st rows uid row,
       bulk_get_push_rules st user_ids = Ok rows →
       uid ∈ user_ids →
       row ∈ default [] (rows !! uid) →
       is_ok (json_loads_conditions (raw_conditions row)) = false
       ∨ is_ok (json_loads_actions (raw_actions row)) = false →
       is_ok (decode_rule_json (stored row)).1 = false
       ∧ is_ok (_get_rules room user_ids st) = false)
  ∧ (∀ room st e,
       get_users_in_room st room = Raise e →
       evaluator_for_room_id room st = Raise e)
  ∧ (∀ room st users e,
       get_users_in_room st room = Ok users →
       _get_rules room users st = Raise e →
       evaluator_for_room_id room st = Raise e)
  ∧ (∀ event handler h e,
       are_guests (store (self h)) (rules_by_user (self h)).*1 = Raise e →
       (action_for_event_by_user event handler h).1 = Raise e)
  ∧ (∀ event handler h users_dict e,
       are_guests (store (self h)) (rules_by_user (self h)).*1 = Ok users_dict →
       _filter_events_for_clients handler users_dict [event] = Raise e →
       (action_for_event_by_user event handler h).1 = Raise e)
  ∧ (∀ event handler h users_dict filtered_by_user e,
       are_guests (store (self h)) (rules_by_user (self h)).*1 = Ok users_dict →
       _filter_events_for_clients handler users_dict [event] = Ok filtered_by_user →
       get_state_for_event (store (self h)) (event_id event) = Raise e →
       (action_for_event_by_user event handler h).1 = Raise e)
  ∧ (∀ event handler this stale_actions stale_cache c e,
       c ∈ evaluator_calls
             (action_for_event_by_user event handler
                (mkHeap this stale_actions stale_cache [])).2 →
       call_result
         (mkPushRuleEvaluatorForEvent event (length (users_in_room this))) c
         = Raise e →
       (action_for_event_by_user event handler
          (mkHeap this stale_actions stale_cache [])).1 = Raise e).
Proof.
  split; [|split; [|split; [|split; [|split; [|split; [|split]]]]]].
  - intros room user_ids st e E. unfold _get_rules. by rewrite E.
  - intros room user_ids st rows uid row Hrows Huid Hrow Hbad.
    assert (is_ok (decode_rule_json (stored row)).1 = false) as Hdec.
    { rewrite decode_rule_json_stored_is_ok. destruct Hbad as [-> | ->]; [done|].
      apply andb_false_r. }
    split; [done|]. unfold _get_rules. rewrite Hrows.
    apply (rules_comprehension_raise _ _ uid (default [] (rows !! uid)) row);
      [done| |done|done].
    apply lookup_stored_rows.
  - intros room st e E. unfold evaluator_for_room_id. by rewrite E.
  - intros room st users e E1 E2. unfold evaluator_for_room_id. by rewrite E1, E2.
  - intros event handler h e E. by rewrite action_for_event_by_user_eq, E.
  - intros event handler h users_dict e E1 E2.
    by rewrite action_for_event_by_user_eq, E1, E2.
  - intros event handler h users_dict filtered_by_user e E1 E2 E3.
    by rewrite action_for_event_by_user_eq, E1, E2, E3.
  - intros event handler this stale_actions stale_cache c e.
    rewrite action_for_event_by_user_eq. simpl.
    destruct (are_guests _ _) as [users_dict|e0];
      [|intros Hin; by apply elem_of_nil in Hin].
    destruct (_filter_events_for_clients _ _ _) as [filtered_by_user|e0];
      [|intros Hin; by apply elem_of_nil in Hin].
    destruct (get_state_for_event _ _) as [member_state|e0];
      [|intros Hin; by apply elem_of_nil in Hin].
    pose proof (user_loop_calls_answered
      (mkPushRuleEvaluatorForEvent event (length (users_in_room this)))
      filtered_by_user (foldl display_name_step ∅ member_state)
      (rules_by_user this) (fresh_heap this)) as Hl.
    specialize (Hl ltac:(by apply Forall_nil)).
    destruct (for_in _ _ _) as [[f|e0] h']; simpl; intros Hin Hc.
    + unfold calls_answered in Hl. rewrite Forall_forall in Hl.
      specialize (Hl c Hin). by rewrite Hc in Hl.
    + destruct (failed_call_is_last _ e0 e _ c Hl Hin Hc) as [_ ->]. done.
Qed.

(** ** The rule loop and the action dict *)

Lemma _condition_checker_frame evaluator conds uid display_name h :
  self (_condition_checker evaluator conds uid display_name h).2 = self h
  ∧ actions_by_user (_condition_checker evaluator conds uid display_name h).2
    = actions_by_user h.
Proof.
  pose (G := λ h', self h' = self h ∧ actions_by_user h' = actions_by_user h).
  assert (inv G (λ _, G) (_condition_checker evaluator conds uid display_name)) as Hinv.
  { apply inv__condition_checker. intros cond. apply inv_condition_step_frame.
    intros h0 h' Hs Ha [H1 H2]. unfold G. split; [|intros _]; split; congruence. }
  specialize (Hinv h (conj eq_refl eq_refl)).
  by destruct (_condition_checker _ _ _ _ h) as [[b|e] h'].
Qed.

Lemma rule_step_continue_actions evaluator uid display_name rule h h' :
  rule_step evaluator uid display_name rule h = (Ok Continue, h') →
  actions_by_user h' = actions_by_user h.
Proof.
  unfold rule_step. destruct (disabled rule); [by intros [= <-]|].
  unfold bind.
  pose proof (_condition_checker_frame evaluator (conditions rule) uid display_name h)
    as [_ Ha].
  destruct (_condition_checker _ _ _ _ h) as [[[|]|e] h1]; simpl in *; [done| |done].
  by intros [= <-].
Qed.

Lemma rule_loop_continue_actions evaluator uid display_name rules h h' :
  for_in (rule_step evaluator uid display_name) rules h = (Ok Continue, h') →
  actions_by_user h' = actions_by_user h.
Proof.
  revert h. induction rules as [|rule rules IH]; intros h; simpl; [by intros [= <-]|].
  unfold bind.
  destruct (rule_step _ _ _ rule h) as [[[| |r]|e] h1] eqn:E; simpl; try done.
  intros Hrest. rewrite (IH _ Hrest). by eapply rule_step_continue_actions.
Qed.

Lemma lookup_record_actions uid acts h :
  actions_by_user (record_actions uid acts h) !! uid =
    match acts with
    | [] => actions_by_user h !! uid
    | _ :: _ => Some acts
    end.
Proof. destruct acts; simpl; [done|]. by rewrite lookup_insert_eq. Qed.

Lemma lookup_record_actions_ne uid uid' acts h :
  uid ≠ uid' →
  actions_by_user (record_actions uid acts h) !! uid' = actions_by_user h !! uid'.
Proof. intros Hne. destruct acts; simpl; [done|]. by rewrite lookup_insert_ne. Qed.

(** C7. Disabled rules are skipped: a rule whose [enabled] flag is present
    and false is passed over with the heap untouched, so it never ends
    the scan as the matching rule and none of its conditions is checked;
    the scan of a rule list goes on as if the rule were not in it; and a
    rule without the flag is treated as one whose flag is true. *)
Theorem disabled_rules_are_skipped evaluator uid display_name :
  (∀ rule h,
     enabled rule = Some false →
     rule_step evaluator uid display_name rule h = (Ok Continue, h))
  ∧ (∀ pre rule post h,
       enabled rule = Some false →
       for_in (rule_step evaluator uid display_name) (pre ++ rule :: post) h =
       for_in (rule_step evaluator uid display_name) (pre ++ post) h)
  ∧ (∀ rule h,
       enabled rule = None →
       rule_step evaluator uid display_name rule h =
       rule_step evaluator uid display_name
         (mkRule (rule_id rule) (Some true) (conditions rule) (actions rule)) h).
Proof.
  assert (∀ rule h, enabled rule = Some false →
            rule_step evaluator uid display_name rule h = (Ok Continue, h)) as Hskip.
  { intros rule h E. apply rule_step_disabled. unfold disabled. by rewrite E. }
  split; [done|]. split.
  - intros pre rule post h E. rewrite !for_in_app.
    destruct (for_in _ pre h) as [[[| |r]|e] h1]; try done.
    by rewrite (for_in_cons_continue _ _ _ _ _ (Hskip rule h1 E)).
  - intros rule h E. unfold rule_step, disabled. simpl. by rewrite E.
Qed.

(** ** The user loop *)

Lemma user_step_skip evaluator filtered_by_user display_names uid rules h :
  filtered_by_user !! uid = Some [] →
  user_step evaluator filtered_by_user display_names (uid, rules) h = (Ok Continue, h).
Proof. intros E. unfold user_step, getitem, bind. simpl. by rewrite E. Qed.

Lemma user_step_key_error evaluator filtered_by_user display_names uid rules h :
  filtered_by_user !! uid = None →
  user_step evaluator filtered_by_user display_names (uid, rules) h =
    (Raise (KeyError uid), h).
Proof. intros E. unfold user_step, getitem, bind. simpl. by rewrite E. Qed.

Lemma user_step_visible evaluator filtered_by_user display_names uid rules x xs h :
  filtered_by_user !! uid = Some (x :: xs) →
  user_step evaluator filtered_by_user display_names (uid, rules) h =
    match for_in (rule_step evaluator uid (display_names !! uid)) rules h with
    | (Ok _, h') => (Ok Continue, h')
    | (Raise e, h') => (Raise e, h')
    end.
Proof. intros E. unfold user_step, getitem, bind. simpl. by rewrite E. Qed.

Lemma user_step_flow evaluator filtered_by_user display_names item h f h' :
  user_step evaluator filtered_by_user display_names item h = (Ok f, h') →
  f = Continue.
Proof.
  destruct item as [uid rules].
  destruct (filtered_by_user !! uid) as [[|x xs]|] eqn:E.
  - rewrite user_step_skip by done. congruence.
  - rewrite (user_step_visible _ _ _ _ _ x xs) by done.
    destruct (for_in _ rules h) as [[f0|e] h0]; congruence.
  - rewrite user_step_key_error by done. congruence.
Qed.

Lemma user_loop_key_error evaluator filtered_by_user display_names items uid h :
  uid ∈ items.*1 →
  filtered_by_user !! uid = None →
  is_ok (for_in (user_step evaluator filtered_by_user display_names) items h).1 = false.
Proof.
  intros Hin Hnone. revert h Hin.
  induction items as [|[u rules] items IH]; intros h Hin;
    [by apply elem_of_nil in Hin|].
  simpl. unfold bind.
  destruct (user_step _ _ _ (u, rules) h) as [[f|e] h1] eqn:E; [|done].
  rewrite (user_step_flow _ _ _ _ _ _ _ E).
  rewrite fmap_cons in Hin. apply elem_of_cons in Hin as [Hu|Hin]; [|by apply IH].
  simpl in Hu. subst u. rewrite user_step_key_error in E by done. done.
Qed.

Lemma user_loop_entries_visible evaluator filtered_by_user display_names items h :
  entries_visible filtered_by_user h →
  match for_in (user_step evaluator filtered_by_user display_names) items h with
  | (Ok _, h') => entries_visible filtered_by_user h'
  | (Raise _, _) => True
  end.
Proof.
  apply (inv_user_loop (entries_visible filtered_by_user) (λ _ _, True)).
  - done.
  - intros item acts h0 _ Hvis H0 k v.
    destruct (decide (item.1 = k)) as [<-|Hne]; [done|].
    rewrite lookup_record_actions_ne by done. apply H0.
  - intros uid display_name cond. apply inv_condition_step_frame.
    intros h0 h' _ Ha H0. split; [|done]. intros k v. rewrite Ha. apply H0.
Qed.

Lemma user_loop_entry_untouched evaluator filtered_by_user display_names items uid h :
  uid ∉ items.*1 →
  match for_in (user_step evaluator filtered_by_user display_names) items h with
  | (Ok _, h') => actions_by_user h' !! uid = actions_by_user h !! uid
  | (Raise _, _) => True
  end.
Proof.
  intros Hnot.
  apply (inv_user_loop (λ h', actions_by_user h' !! uid = actions_by_user h !! uid)
           (λ _ _, True)); [done| | |done].
  - intros item acts h0 Hin _ H0.
    rewrite lookup_record_actions_ne; [done|].
    intros Heq. apply Hnot. rewrite <- Heq. by apply list_elem_of_fmap_2.
  - intros u display_name cond. apply inv_condition_step_frame.
    intros h0 h' _ Ha H0. split; [|done]. by rewrite Ha.
Qed.

(** C2. Visibility skipping, as the code has it.  A user whose entry in
    the filter's answer is the empty sequence is passed over: the loop
    over the users goes on as if the user were not in the rule-set
    mapping, whatever the user's rules, and when the invocation returns,
    the action dict has no entry for the user.  A user of the rule-set
    mapping for whom the filter's answer has no entry at all makes the
    lookup raise [KeyError] when the loop reaches the user, and the
    invocation does not return. *)
Theorem invisible_users_are_skipped event handler h users_dict filtered_by_user uid :
  are_guests (store (self h)) (rules_by_user (self h)).*1 = Ok users_dict →
  _filter_events_for_clients handler users_dict [event] = Ok filtered_by_user →
  (filtered_by_user !! uid = Some [] →
     (∀ evaluator display_names before rules after h0,
        for_in (user_step evaluator filtered_by_user display_names)
          (before ++ (uid, rules) :: after) h0 =
        for_in (user_step evaluator filtered_by_user display_names)
          (before ++ after) h0)
     ∧ (∀ res, (action_for_event_by_user event handler h).1 = Ok res →
               res !! uid = None))
  ∧ (filtered_by_user !! uid = None →
     (∀ evaluator display_names rules h0,
        user_step evaluator filtered_by_user display_names (uid, rules) h0 =
        (Raise (KeyError uid), h0))
     ∧ (uid ∈ (rules_by_user (self h)).*1 →
        is_ok (action_for_event_by_user event handler h).1 = false)).
Proof.
  intros Hguests Hfilter. split.
  - intros Hempty. split.
    + intros evaluator display_names before rules after h0. rewrite !for_in_app.
      destruct (for_in _ before h0) as [[[| |r]|e] h1]; try done.
      by rewrite (for_in_cons_continue _ _ _ _ _
                    (user_step_skip _ _ _ _ rules h1 Hempty)).
    + intros res. rewrite action_for_event_by_user_eq, Hguests, Hfilter.
      destruct (get_state_for_event _ _) as [member_state|e]; [|done].
      pose proof (user_loop_entries_visible
        (mkPushRuleEvaluatorForEvent event (length (users_in_room (self h))))
        filtered_by_user (foldl display_name_step ∅ member_state)
        (rules_by_user (self h)) (fresh_heap (self h))) as Hl.
      specialize (Hl ltac:(by intros k v; simpl; rewrite lookup_empty)).
      destruct (for_in _ _ _) as [[f|e] h']; simpl; [|done].
      intros [= <-]. destruct (actions_by_user h' !! uid) as [v|] eqn:Ev; [|done].
      destruct (Hl uid v Ev) as (x & xs & Hx). congruence.
  - intros Hnone. split.
    + intros evaluator display_names rules h0. by apply user_step_key_error.
    + intros Hin. rewrite action_for_event_by_user_eq, Hguests, Hfilter.
      destruct (get_state_for_event _ _) as [member_state|e]; [|done].
      pose proof (user_loop_key_error
        (mkPushRuleEvaluatorForEvent event (length (users_in_room (self h))))
        filtered_by_user (foldl display_name_step ∅ member_state)
        (rules_by_user (self h)) uid (fresh_heap (self h)) Hin Hnone) as Hl.
      by destruct (for_in _ _ _) as [[f|e] h'].
Qed.

(** C6. Action post-processing: for a user with a visible event whose
    winning rule (the first enabled rule of the user's sequence whose
    conditions check true) has action list L, the entry of the user in
    the returned action dict is L without any [dont_notify], and there is
    an entry exactly when that list is not empty.  So [dont_notify] alone
    leaves no entry, and [notify, dont_notify, sound] leaves
    [notify, sound]. *)
Theorem actions_without_dont_notify
    event handler h users_dict filtered_by_user member_state
    before uid pre rule post after x xs h1 h2 h3 :
  rules_by_user (self h) = before ++ (uid, pre ++ rule :: post) :: after →
  NoDup (rules_by_user (self h)).*1 →
  are_guests (store (self h)) (rules_by_user (self h)).*1 = Ok users_dict →
  _filter_events_for_clients handler users_dict [event] = Ok filtered_by_user →
  get_state_for_event (store (self h)) (event_id event) = Ok member_state →
  filtered_by_user !! uid = Some (x :: xs) →
  for_in (user_step
            (mkPushRuleEvaluatorForEvent event (length (users_in_room (self h))))
            filtered_by_user (foldl display_name_step ∅ member_state))
    before (fresh_heap (self h)) = (Ok Continue, h1) →
  for_in (rule_step
            (mkPushRuleEvaluatorForEvent event (length (users_in_room (self h))))
            uid (foldl display_name_step ∅ member_state !! uid))
    pre h1 = (Ok Continue, h2) →
  disabled rule = false →
  _condition_checker
    (mkPushRuleEvaluatorForEvent event (length (users_in_room (self h))))
    (conditions rule) uid (foldl display_name_step ∅ member_state !! uid) h2
    = (Ok true, h3) →
  (∀ res, (action_for_event_by_user event handler h).1 = Ok res →
     res !! uid = entry_of (actions rule)
     ∧ (is_Some (res !! uid) ↔ filter (λ a, a ≠ dont_notify) (actions rule) ≠ [])
     ∧ (∀ acts, res !! uid = Some acts →
                acts = filter (λ a, a ≠ dont_notify) (actions rule)))
  ∧ entry_of [dont_notify] = None
  ∧ entry_of [ActionStr "notify"; dont_notify; ActionStr "sound"]
    = Some [ActionStr "notify"; ActionStr "sound"].
Proof.
  intros Hrules Hnodup Hguests Hfilter Hstate Hvis Hbefore Hpre Hen Hc.
  split; [|split; reflexivity].
  intros res. rewrite action_for_event_by_user_eq, Hguests, Hfilter, Hstate.
  rewrite Hrules in Hnodup |- *.
  rewrite fmap_app, fmap_cons in Hnodup. simpl in Hnodup.
  apply NoDup_app in Hnodup as (_ & Hba & Hnd).
  apply NoDup_cons in Hnd as [Hafter _].
  assert (uid ∉ before.*1) as Hb.
  { intros Hin. apply (Hba _ Hin). by left. }
  rewrite (for_in_continue_app _ _ _ _ _ Hbefore).
  pose proof (user_loop_entry_untouched
    (mkPushRuleEvaluatorForEvent event (length (users_in_room (self h))))
    filtered_by_user (foldl display_name_step ∅ member_state) before uid
    (fresh_heap (self h)) Hb) as Hh1.
  rewrite Hbefore in Hh1. simpl in Hh1. rewrite lookup_empty in Hh1.
  pose proof (rule_loop_first_match _ _ _ _ _ post _ _ _ Hpre Hen Hc) as Hscan.
  assert (user_step
            (mkPushRuleEvaluatorForEvent event (length (users_in_room (self h))))
            filtered_by_user (foldl display_name_step ∅ member_state)
            (uid, pre ++ rule :: post) h1
          = (Ok Continue,
             record_actions uid (filter (λ a, a ≠ dont_notify) (actions rule)) h3))
    as Hstep.
  { rewrite (user_step_visible _ _ _ _ _ x xs) by done. by rewrite Hscan. }
  rewrite (for_in_cons_continue _ _ _ _ _ Hstep).
  pose proof (user_loop_entry_untouched
    (mkPushRuleEvaluatorForEvent event (length (users_in_room (self h))))
    filtered_by_user (foldl display_name_step ∅ member_state) after uid
    (record_actions uid (filter (λ a, a ≠ dont_notify) (actions rule)) h3)
    Hafter) as Hh4.
  destruct (for_in _ after _) as [[f|e] h4]; simpl; [|done].
  intros [= <-]. rewrite Hh4, lookup_record_actions.
  pose proof (_condition_checker_frame
    (mkPushRuleEvaluatorForEvent event (length (users_in_room (self h))))
    (conditions rule) uid (foldl display_name_step ∅ member_state !! uid) h2)
    as [_ Ha3].
  rewrite Hc in Ha3. simpl in Ha3.
  rewrite Ha3, (rule_loop_continue_actions _ _ _ _ _ _ Hpre), Hh1.
  unfold entry_of. destruct (filter _ (actions rule)) as [|a acts].
  - split; [done|]. split; [|done]. split; [by intros [? ?]|done].
  - split; [done|]. split; [|by intros ? [= <-]]. split; [done|]. by eexists.
Qed.

(** * Further properties of the module *)

(** ** Rule loading *)

Lemma setitem_keys {V} (d : list (string * V)) k v k' :
  k' ∈ (setitem d k v).*1 ↔ k' = k ∨ k' ∈ d.*1.
Proof.
  induction d as [|[k0 v0] d IH]; simpl.
  - rewrite list_elem_of_singleton. rewrite elem_of_nil. tauto.
  - case_decide as Hk; simpl; rewrite !elem_of_cons.
    + subst k0. tauto.
    + rewrite IH. tauto.
Qed.

Lemma setitem_NoDup {V} (d : list (string * V)) k v :
  NoDup d.*1 → NoDup (setitem d k v).*1.
Proof.
  induction d as [|[k0 v0] d IH]; simpl; intros Hnd.
  - apply NoDup_singleton.
  - apply NoDup_cons in Hnd as [Hnot Hnd]. case_decide as Hk; simpl.
    + subst k0. by apply NoDup_cons.
    + apply NoDup_cons. split; [|by apply IH].
      rewrite setitem_keys. intros [->|Hin]; [done|]. by apply Hnot.
Qed.

Lemma setitem_elem {V} (d : list (string * V)) k v k' v' :
  NoDup d.*1 →
  (k', v') ∈ setitem d k v →
  (k' = k ∧ v' = v) ∨ (k' ≠ k ∧ (k', v') ∈ d).
Proof.
  induction d as [|[k0 v0] d IH]; simpl; intros Hnd Hin.
  - apply list_elem_of_singleton in Hin. left. by inversion Hin.
  - apply NoDup_cons in Hnd as [Hnot Hnd]. case_decide as Hk.
    + subst k0. apply elem_of_cons in Hin as [Heq|Hin]; [left; by inversion Heq|].
      right. split; [|by right]. intros ->. apply Hnot.
      by apply (list_elem_of_fmap_2 fst) in Hin.
    + apply elem_of_cons in Hin as [Heq|Hin].
      * inversion Heq; subst. right. split; [done|by left].
      * destruct (IH Hnd Hin) as [?|[? ?]]; [by left|]. right. split; [done|by right].
Qed.

Lemma decode_rule_json_decoded (r : Row) :
  decoded_row r → is_ok (decode_rule_json r).1 = false.
Proof. intros [conds Hc]. unfold decode_rule_json. by rewrite Hc. Qed.

Lemma decode_rule_json_leaves_decoded (r : Row) rule r' :
  decode_rule_json r = (Ok rule, r') → decoded_row r'.
Proof.
  unfold decode_rule_json.
  destruct (loads json_loads_conditions (row_conditions r)) as [conds|e]; [|done].
  simpl. destruct (loads json_loads_actions (row_actions r)) as [acts|e]; [|done].
  intros [= _ <-]. by exists conds.
Qed.

Lemma decode_rows_leaves_decoded rs rules rs' :
  decode_rows rs = (Ok rules, rs') →
  Forall decoded_row rs' ∧ length rs' = length rs.
Proof.
  revert rules rs'. induction rs as [|r rs IH]; intros rules rs'; simpl.
  - intros [= _ <-]. by split.
  - destruct (decode_rule_json r) as [[rule|e] r'] eqn:Er; [|done].
    destruct (decode_rows rs) as [[rules0|e] rs0] eqn:Ers; [|done].
    intros [= _ <-]. destruct (IH _ _ eq_refl) as [Hd Hl]. split.
    + constructor; [by eapply decode_rule_json_leaves_decoded|done].
    + simpl. by rewrite Hl.
Qed.

Lemma decode_rows_of_decoded rs rules rs' :
  Forall decoded_row rs → decode_rows rs = (Ok rules, rs') →
  rs = [] ∧ rules = [].
Proof.
  destruct rs as [|r rs]; simpl; [by intros _ [= <- _]|].
  intros Hd. apply Forall_cons in Hd as [Hr _].
  pose proof (decode_rule_json_decoded r Hr) as Hbad.
  by destruct (decode_rule_json r) as [[rule|e] r'].
Qed.

Lemma decode_rows_of_stored (raws : list RawRule) rules rs' :
  decode_rows (stored <$> raws) = (Ok rules, rs') →
  Forall2 (λ row rule, (decode_rule_json (stored row)).1 = Ok rule) raws rules.
Proof.
  revert rules rs'. induction raws as [|row raws IH]; intros rules rs'.
  - simpl. intros [= <- _]. constructor.
  - rewrite fmap_cons. cbn [decode_rows].
    destruct (decode_rule_json (stored row)) as [[rule|e] r'] eqn:Er; [|done].
    destruct (decode_rows (stored <$> raws)) as [[rules0|e] rs0] eqn:Ers; [|done].
    intros [= <- _]. constructor; [by rewrite Er|]. by eapply IH.
Qed.

Lemma rows_state_stored (rows0 : gmap string (list RawRule)) :
  rows_state rows0 (stored_rows rows0).
Proof. intros u. left. apply lookup_stored_rows. Qed.

Lemma default_lookup_alter (rows_now : gmap string (list Row)) u k rs' :
  default [] (alter (λ _, rs') u rows_now !! k) =
    if decide (u = k) then
      match rows_now !! u with Some _ => rs' | None => [] end
    else default [] (rows_now !! k).
Proof.
  destruct (decide (u = k)) as [->|Hne].
  - rewrite lookup_alter_eq. by destruct (rows_now !! k).
  - by rewrite lookup_alter_ne.
Qed.

Lemma rows_state_alter rows0 rows_now u rules rs' :
  rows_state rows0 rows_now →
  decode_rows (default [] (rows_now !! u)) = (Ok rules, rs') →
  rows_state rows0 (alter (λ _, rs') u rows_now).
Proof.
  intros Hst Hdec k. rewrite default_lookup_alter.
  destruct (decide (u = k)) as [<-|Hne]; [|apply Hst].
  destruct (rows_now !! u) as [rs|] eqn:Hu.
  - right. simpl in Hdec.
    destruct (decode_rows_leaves_decoded _ _ _ Hdec) as [Hd Hl].
    split; [done|]. rewrite Hl.
    destruct (Hst u) as [Hs|[_ Hlen]]; rewrite Hu in *; simpl in *.
    + by rewrite Hs, length_fmap.
    + done.
  - specialize (Hst u). by rewrite Hu in Hst.
Qed.

Lemma rules_comprehension_spec rows0 rows_now user_ids acc rules :
  rules_comprehension rows_now user_ids acc = Ok rules →
  rows_state rows0 rows_now →
  NoDup acc.*1 →
  NoDup rules.*1
  ∧ (∀ k, k ∈ rules.*1 ↔ k ∈ acc.*1 ∨ k ∈ user_ids)
  ∧ (∀ k v, (k, v) ∈ rules →
       (k ∈ user_ids
        ∧ ∃ decoded,
            Forall2 (λ row rule, (decode_rule_json (stored row)).1 = Ok rule)
              (default [] (rows0 !! k)) decoded
            ∧ v = list_with_base_rules decoded)
       ∨ ((k, v) ∈ acc ∧ k ∉ user_ids)).
Proof.
  revert rows_now acc. induction user_ids as [|uid rest IH]; intros rows_now acc; simpl.
  - intros [= <-] _ Hnd. split; [done|]. split.
    + intros k. rewrite elem_of_nil. tauto.
    + intros k v Hin. right. split; [done|]. apply not_elem_of_nil.
  - destruct (decode_rows (default [] (rows_now !! uid)))
      as [[decoded|e] rows_of_uid] eqn:Eu; [|done].
    intros Hrest Hst Hnd.
    destruct (IH _ _ Hrest (rows_state_alter _ _ _ _ _ Hst Eu)
                (setitem_NoDup _ _ _ Hnd)) as (Hnd' & Hkeys & Hvals).
    split; [done|]. split.
    + intros k. rewrite Hkeys, setitem_keys, elem_of_cons. tauto.
    + intros k v Hin. destruct (Hvals k v Hin) as [[Hk Hdec]|[Hacc Hk]].
      * left. split; [by right|done].
      * destruct (setitem_elem _ _ _ _ _ Hnd Hacc) as [[-> ->]|[Hne Hold]].
        -- left. split; [by left|]. exists decoded. split; [|done].
           destruct (Hst uid) as [Hs|[Hd Hlen]].
           ++ rewrite Hs in Eu. by eapply decode_rows_of_stored.
           ++ destruct (decode_rows_of_decoded _ _ _ Hd Eu) as [Hnil ->].
              rewrite Hnil in Hlen. simpl in Hlen.
              destruct (default [] (rows0 !! uid)); [constructor|done].
        -- right. split; [done|]. rewrite elem_of_cons. tauto.
Qed.

Lemma get_rules_keys_aux room user_ids st rules :
  _get_rules room user_ids st = Ok rules →
  NoDup rules.*1 ∧ ∀ uid, uid ∈ rules.*1 ↔ uid ∈ user_ids.
Proof.
  unfold _get_rules. destruct (bulk_get_push_rules st user_ids) as [rows|e]; [|done].
  intros Hc.
  destruct (rules_comprehension_spec rows _ _ _ _ Hc (rows_state_stored rows)
              (NoDup_nil_2)) as (Hnd & Hkeys & _).
  split; [done|]. intros uid. rewrite Hkeys, elem_of_nil. tauto.
Qed.

(** X1. The mapping [_get_rules] returns has one entry per requested user:
    its keys are distinct, and a user id is a key exactly when it was
    requested, whether or not rows are stored for it. *)
Theorem get_rules_keys room user_ids st rules :
  _get_rules room user_ids st = Ok rules →
  NoDup rules.*1 ∧ ∀ uid, uid ∈ rules.*1 ↔ uid ∈ user_ids.
Proof. apply get_rules_keys_aux. Qed.

(** X2. Every entry of the mapping [_get_rules] returns is the result of
    [list_with_base_rules] on that user's stored rows, decoded one by one
    in their stored order; for a user without stored rows it is
    [list_with_base_rules] of the empty list. *)
Theorem get_rules_entries room user_ids st rows rules uid rules_of_uid :
  bulk_get_push_rules st user_ids = Ok rows →
  _get_rules room user_ids st = Ok rules →
  (uid, rules_of_uid) ∈ rules →
  (∃ decoded,
     Forall2 (λ row rule, (decode_rule_json (stored row)).1 = Ok rule)
       (default [] (rows !! uid)) decoded
     ∧ rules_of_uid = list_with_base_rules decoded)
  ∧ (rows !! uid = None → rules_of_uid = list_with_base_rules []).
Proof.
  intros Hrows. unfold _get_rules. rewrite Hrows. intros Hc Hin.
  destruct (rules_comprehension_spec rows _ _ _ _ Hc (rows_state_stored rows)
              (NoDup_nil_2)) as (_ & _ & Hvals).
  destruct (Hvals _ _ Hin) as [[_ (decoded & Hdec & ->)]|[Hnil _]];
    [|by apply elem_of_nil in Hnil].
  split.
  - by exists decoded.
  - intros Hnone. rewrite Hnone in Hdec. simpl in Hdec.
    by apply Forall2_nil_inv_l in Hdec as ->.
Qed.

(** X3. The evaluator [evaluator_for_room_id] builds holds the room id and
    the store it was given and the members the store answered, and its
    rule-set mapping has exactly one entry for every member. *)
Theorem evaluator_for_room_id_members room st this :
  evaluator_for_room_id room st = Ok this →
  room_id this = room
  ∧ store this = st
  ∧ get_users_in_room st room = Ok (users_in_room this)
  ∧ NoDup (rules_by_user this).*1
  ∧ (∀ uid, uid ∈ users_in_room this ↔ ∃ rules, (uid, rules) ∈ rules_by_user this).
Proof.
  unfold evaluator_for_room_id.
  destruct (get_users_in_room st room) as [users|e]; [|done].
  destruct (_get_rules room users st) as [rules|e] eqn:Hr; [|done].
  intros [= <-]. simpl. destruct (get_rules_keys_aux _ _ _ _ Hr) as [Hnd Hkeys].
  repeat split; try done.
  - intros Hin. apply Hkeys in Hin. apply list_elem_of_fmap in Hin as ([k v] & -> & Hin).
    by exists v.
  - intros [v Hin]. apply Hkeys. by apply (list_elem_of_fmap_2 fst) in Hin.
Qed.

Lemma rules_comprehension_decoded_again rows_now user_ids uid acc :
  uid ∈ user_ids →
  Forall decoded_row (default [] (rows_now !! uid)) →
  default [] (rows_now !! uid) ≠ [] →
  is_ok (rules_comprehension rows_now user_ids acc) = false.
Proof.
  revert rows_now acc.
  induction user_ids as [|u user_ids IH]; intros rows_now acc Hin Hd Hne;
    [by apply elem_of_nil in Hin|].
  simpl. destruct (decode_rows (default [] (rows_now !! u)))
    as [[rules|e] rs'] eqn:Eu; [|done].
  destruct (decide (u = uid)) as [->|Hu].
  - by destruct (decode_rows_of_decoded _ _ _ Hd Eu).
  - apply elem_of_cons in Hin as [->|Hin]; [done|].
    apply IH; [done| |]; rewrite default_lookup_alter;
      by rewrite decide_False by done.
Qed.

Lemma rules_comprehension_twice rows_now pre uid rest acc :
  uid ∈ rest →
  default [] (rows_now !! uid) ≠ [] →
  is_ok (rules_comprehension rows_now (pre ++ uid :: rest) acc) = false.
Proof.
  intros Hin. revert rows_now acc.
  assert (∀ rows_now acc user_ids rules rs',
            uid ∈ user_ids →
            default [] (rows_now !! uid) ≠ [] →
            decode_rows (default [] (rows_now !! uid)) = (Ok rules, rs') →
            is_ok (rules_comprehension (alter (λ _, rs') uid rows_now)
                     user_ids acc) = false) as Hafter.
  { intros rows_now acc user_ids rules rs' Hu Hne Hdec.
    destruct (decode_rows_leaves_decoded _ _ _ Hdec) as [Hd Hl].
    apply (rules_comprehension_decoded_again _ _ uid); [done| |];
      rewrite default_lookup_alter, decide_True by done;
      destruct (rows_now !! uid) as [rs|]; simpl in *; try done.
    intros ->. simpl in Hl. destruct rs; [done|discriminate]. }
  induction pre as [|u pre IH]; intros rows_now acc Hne; simpl.
  - destruct (decode_rows (default [] (rows_now !! uid)))
      as [[rules|e] rs'] eqn:Eu; [|done].
    by eapply Hafter.
  - destruct (decode_rows (default [] (rows_now !! u)))
      as [[rules|e] rs'] eqn:Eu; [|done].
    destruct (decide (u = uid)) as [->|Hu].
    + eapply Hafter; [|done|done]. apply elem_of_app. right. by left.
    + apply IH. rewrite default_lookup_alter. by rewrite decide_False by done.
Qed.

(** X15. Rows are decoded in place, so they can be decoded once: when a
    user id for which the store answered at least one row occurs twice
    among the requested user ids, [_get_rules] does not return; the
    second pass over that user's rows hands a decoded list to
    [json.loads], which raises [TypeError], unless something failed
    before. *)
Theorem get_rules_decodes_rows_once room st rows pre uid mid post row more :
  bulk_get_push_rules st (pre ++ uid :: mid ++ uid :: post) = Ok rows →
  rows !! uid = Some (row :: more) →
  is_ok (_get_rules room (pre ++ uid :: mid ++ uid :: post) st) = false.
Proof.
  intros Hrows Hu. unfold _get_rules. rewrite Hrows.
  apply rules_comprehension_twice.
  - apply elem_of_app. right. by left.
  - rewrite lookup_stored_rows, Hu. done.
Qed.

(** ** Display names *)

Lemma display_name_step_lookup (d : gmap string string) ev k :
  display_name_step d ev !! k =
    match content ev !! "displayname" with
    | Some nm =>
        if truthy nm && bool_decide (type ev = EventTypes_Member)
           && bool_decide (state_key ev = k)
        then Some nm else d !! k
    | None => d !! k
    end.
Proof.
  unfold display_name_step. destruct (content ev !! "displayname") as [nm|]; [|done].
  destruct (truthy nm && bool_decide (type ev = EventTypes_Member)); simpl; [|done].
  case_bool_decide as Hk.
  - subst k. by rewrite lookup_insert_eq.
  - by rewrite lookup_insert_ne.
Qed.

Lemma display_name_step_names (d : gmap string string) ev k nm :
  names_member ev k nm → display_name_step d ev !! k = Some nm.
Proof.
  intros (Hnm & Ht & Hty & Hk). rewrite display_name_step_lookup, Hnm, Ht.
  by rewrite !bool_decide_eq_true_2.
Qed.

Lemma display_name_step_other (d : gmap string string) ev k :
  (∀ nm, ¬ names_member ev k nm) → display_name_step d ev !! k = d !! k.
Proof.
  intros Hno. rewrite display_name_step_lookup.
  destruct (content ev !! "displayname") as [nm|] eqn:Hnm; [|done].
  destruct (truthy nm) eqn:Ht; [|done].
  case_bool_decide as Hty; [|done]. case_bool_decide as Hk; [|done].
  by destruct (Hno nm).
Qed.

Lemma display_names_origin (d : gmap string string) ms k nm :
  foldl display_name_step d ms !! k = Some nm →
  d !! k = Some nm ∨ ∃ ev, ev ∈ ms ∧ names_member ev k nm.
Proof.
  revert d. induction ms as [|ev ms IH]; intros d; simpl; [by left|].
  intros Hl. destruct (IH _ Hl) as [Hd|(ev' & Hin & Hev)].
  - rewrite display_name_step_lookup in Hd.
    destruct (content ev !! "displayname") as [nm'|] eqn:Hnm; [|by left].
    destruct (truthy nm') eqn:Ht; [|by left].
    case_bool_decide as Hty; [|by left]. case_bool_decide as Hk; [|by left].
    simpl in Hd. inversion Hd; subst nm'. right. exists ev. split; [by left|done].
  - right. exists ev'. split; [by right|done].
Qed.

Lemma display_names_untouched (d : gmap string string) ms k :
  (∀ ev nm, ev ∈ ms → ¬ names_member ev k nm) →
  foldl display_name_step d ms !! k = d !! k.
Proof.
  revert d. induction ms as [|ev ms IH]; intros d Hno; simpl; [done|].
  rewrite IH by (intros ev' nm' Hin; apply Hno; by right).
  apply display_name_step_other. intros nm. apply Hno. by left.
Qed.

(** X4. The display names an invocation works with come from the member
    state alone: a user has a name only if some event of the state is a
    member event for that user with a non-empty [displayname], the name
    is the one of the last such event, and a user without such an event
    has none. *)
Theorem display_names_from_member_events member_state k :
  (∀ nm, foldl display_name_step ∅ member_state !! k = Some nm →
         ∃ ev, ev ∈ member_state ∧ names_member ev k nm)
  ∧ (∀ pre ev post nm,
       member_state = pre ++ ev :: post →
       names_member ev k nm →
       (∀ ev' nm', ev' ∈ post → ¬ names_member ev' k nm') →
       foldl display_name_step ∅ member_state !! k = Some nm)
  ∧ ((∀ ev nm, ev ∈ member_state → ¬ names_member ev k nm) →
     foldl display_name_step ∅ member_state !! k = None).
Proof.
  split; [|split].
  - intros nm Hl. destruct (display_names_origin _ _ _ _ Hl) as [He|?]; [|done].
    by rewrite lookup_empty in He.
  - intros pre ev post nm -> Hev Hpost.
    rewrite foldl_app. simpl. rewrite (display_names_untouched _ _ _ Hpost).
    by apply display_name_step_names.
  - intros Hno. by rewrite (display_names_untouched _ _ _ Hno), lookup_empty.
Qed.

(** ** Invariants that look at the rule in hand *)

Lemma inv_rule_step_of_rule G F evaluator uid display_name rule :
  (disabled rule = false →
   ∀ h, G h → G (record_actions uid (filter (λ a, a ≠ dont_notify) (actions rule)) h)) →
  (disabled rule = false →
   ∀ cond, cond ∈ conditions rule →
           inv G F (condition_step evaluator uid display_name cond)) →
  inv G F (rule_step evaluator uid display_name rule).
Proof.
  intros Hrec Hc. unfold rule_step.
  destruct (disabled rule) eqn:Hen; [apply inv_ret|].
  apply inv_bind.
  - unfold _condition_checker. apply inv_bind.
    + apply inv_for_in. auto.
    + intros [| |r]; apply inv_ret.
  - intros [|]; [|apply inv_ret].
    apply inv_bind; [apply inv_modify; auto|]. intros _. apply inv_ret.
Qed.

Lemma inv_user_step_of_rule G F evaluator filtered_by_user display_names
    (item : string * list Rule) :
  (∀ e h, G h → F e h) →
  (∀ rule x xs,
     filtered_by_user !! item.1 = Some (x :: xs) →
     rule ∈ item.2 →
     disabled rule = false →
     (∀ h, G h →
           G (record_actions item.1
                (filter (λ a, a ≠ dont_notify) (actions rule)) h))
     ∧ (∀ cond, cond ∈ conditions rule →
                inv G F (condition_step evaluator item.1
                           (display_names !! item.1) cond))) →
  inv G F (user_step evaluator filtered_by_user display_names item).
Proof.
  intros HF Hrule. unfold user_step, getitem.
  destruct (filtered_by_user !! item.1) as [filtered|] eqn:E.
  - intros h Hh. rewrite (bind_ok _ _ h filtered h) by done.
    destruct filtered as [|x xs]; simpl; [done|].
    revert h Hh. apply inv_bind; [|intros _; apply inv_ret].
    apply inv_for_in. intros rule Hin.
    apply inv_rule_step_of_rule; intros Hen.
    + by apply (Hrule rule x xs).
    + by apply (Hrule rule x xs).
  - intros h Hh. rewrite (bind_raise _ _ h (KeyError item.1) h) by done. auto.
Qed.

Lemma condition_step_calls evaluator uid display_name cond h :
  evaluator_calls (condition_step evaluator uid display_name cond h).2
  = evaluator_calls h
  ∨ evaluator_calls (condition_step evaluator uid display_name cond h).2
    = evaluator_calls h ++ [mkCall cond uid display_name].
Proof.
  destruct (cached_result cond h) as [[|]|] eqn:E.
  - left. by rewrite condition_step_cached_true.
  - left. by rewrite condition_step_cached_false.
  - right. rewrite condition_step_fresh by done.
    destruct (evaluator_matches _ _ _ _) as [[|]|e]; simpl;
      by rewrite ?evaluator_calls_memoize.
Qed.

(** ** What the returned dict holds *)

Lemma user_loop_entries_from evaluator filtered_by_user display_names items h :
  (∀ k acts, actions_by_user h !! k = Some acts →
             acts ≠ [] ∧ entry_from items filtered_by_user k acts) →
  match for_in (user_step evaluator filtered_by_user display_names) items h with
  | (Ok _, h') =>
      ∀ k acts, actions_by_user h' !! k = Some acts →
                acts ≠ [] ∧ entry_from items filtered_by_user k acts
  | (Raise _, _) => True
  end.
Proof.
  apply (inv_for_in
           (λ h', ∀ k acts, actions_by_user h' !! k = Some acts →
                            acts ≠ [] ∧ entry_from items filtered_by_user k acts)
           (λ _ _, True)).
  intros [uid rules] Hitem. apply inv_user_step_of_rule; [done|].
  simpl. intros rule x xs Hvis Hrule Hen. split.
  - intros h0 H0 k acts.
    destruct (filter (λ a, a ≠ dont_notify) (actions rule)) as [|a l] eqn:Hf;
      simpl; [apply H0|].
    destruct (decide (uid = k)) as [<-|Hne].
    + rewrite lookup_insert_eq. intros [= <-]. split; [done|].
      exists rules, rule, x, xs. by rewrite Hf.
    + rewrite lookup_insert_ne by done. apply H0.
  - intros cond _. apply inv_condition_step_frame.
    intros h0 h' _ Ha H0. split; [|done]. intros k acts. rewrite Ha. apply H0.
Qed.

Lemma result_entries_from event handler h users_dict filtered_by_user res uid acts :
  are_guests (store (self h)) (rules_by_user (self h)).*1 = Ok users_dict →
  _filter_events_for_clients handler users_dict [event] = Ok filtered_by_user →
  (action_for_event_by_user event handler h).1 = Ok res →
  res !! uid = Some acts →
  acts ≠ [] ∧ entry_from (rules_by_user (self h)) filtered_by_user uid acts.
Proof.
  intros Hguests Hfilter. rewrite action_for_event_by_user_eq, Hguests, Hfilter.
  destruct (get_state_for_event _ _) as [member_state|e]; [|done].
  pose proof (user_loop_entries_from
    (mkPushRuleEvaluatorForEvent event (length (users_in_room (self h))))
    filtered_by_user (foldl display_name_step ∅ member_state)
    (rules_by_user (self h)) (fresh_heap (self h))) as Hl.
  specialize (Hl ltac:(by intros k a; simpl; rewrite lookup_empty)).
  destruct (for_in _ _ _) as [[f|e] h']; simpl; [|done].
  intros [= <-]. apply Hl.
Qed.

(** X5. Every entry of the returned action dict is a non-empty list, and
    no entry holds [dont_notify]. *)
Theorem result_entries_nonempty event handler h res uid acts :
  (action_for_event_by_user event handler h).1 = Ok res →
  res !! uid = Some acts →
  acts ≠ [] ∧ dont_notify ∉ acts.
Proof.
  intros Hres Hl.
  destruct (are_guests (store (self h)) (rules_by_user (self h)).*1)
    as [users_dict|e] eqn:Hguests;
    [|by rewrite action_for_event_by_user_eq, Hguests in Hres].
  destruct (_filter_events_for_clients handler users_dict [event])
    as [filtered_by_user|e] eqn:Hfilter;
    [|by rewrite action_for_event_by_user_eq, Hguests, Hfilter in Hres].
  destruct (result_entries_from _ _ _ _ _ _ _ _ Hguests Hfilter Hres Hl)
    as [Hne (rules & rule & x & xs & _ & _ & _ & -> & _)].
  split; [done|]. intros Hin. apply list_elem_of_filter in Hin as [Hn _]. done.
Qed.

(** X6. Every entry of the returned action dict belongs to a user of the
    rule-set mapping for whom the filter answered a visible event, and is
    the action list of one of that user's enabled rules with [dont_notify]
    dropped. *)
Theorem result_entries_provenance
    event handler h users_dict filtered_by_user res uid acts :
  are_guests (store (self h)) (rules_by_user (self h)).*1 = Ok users_dict →
  _filter_events_for_clients handler users_dict [event] = Ok filtered_by_user →
  (action_for_event_by_user event handler h).1 = Ok res →
  res !! uid = Some acts →
  ∃ rules rule x xs,
    (uid, rules) ∈ rules_by_user (self h)
    ∧ rule ∈ rules
    ∧ disabled rule = false
    ∧ acts = filter (λ a, a ≠ dont_notify) (actions rule)
    ∧ filtered_by_user !! uid = Some (x :: xs).
Proof.
  intros Hguests Hfilter Hres Hl.
  by destruct (result_entries_from _ _ _ _ _ _ _ _ Hguests Hfilter Hres Hl).
Qed.

(** ** What the evaluator is asked, and what the cache holds *)

Lemma user_loop_calls_from evaluator filtered_by_user display_names items h :
  Forall (call_from items filtered_by_user display_names) (evaluator_calls h) →
  Forall (call_from items filtered_by_user display_names)
    (evaluator_calls
       (for_in (user_step evaluator filtered_by_user display_names) items h).2).
Proof.
  intros Hh.
  pose (G := λ h', Forall (call_from items filtered_by_user display_names)
                     (evaluator_calls h')).
  assert (inv G (λ _, G)
            (for_in (user_step evaluator filtered_by_user display_names) items))
    as Hinv.
  { apply inv_for_in. intros [uid rules] Hitem.
    apply inv_user_step_of_rule; [done|].
    simpl. intros rule x xs Hvis Hrule Hen. split.
    - intros h0 H0. unfold G. by rewrite evaluator_calls_record_actions.
    - intros cond Hcond h0 H0.
      assert (G (condition_step evaluator uid (display_names !! uid) cond h0).2)
        as Hstep.
      { unfold G.
        destruct (condition_step_calls evaluator uid (display_names !! uid) cond h0)
          as [-> | ->]; [done|].
        apply Forall_app. split; [done|]. apply Forall_singleton.
        by exists rules, rule, x, xs. }
      by destruct (condition_step _ _ _ _ h0) as [[f|e] h']. }
  specialize (Hinv h Hh).
  by destruct (for_in _ items h) as [[f|e] h'].
Qed.

(** X7. The evaluator is only ever asked about a condition of an enabled
    rule of a user of the rule-set mapping for whom the filter answered a
    visible event, and with that user's display name: no condition is
    evaluated for a user who cannot see the event, for a user outside
    the mapping, or under another user's name. *)
Theorem evaluator_calls_provenance
    event handler this stale_actions stale_cache
    users_dict filtered_by_user member_state c :
  are_guests (store this) (rules_by_user this).*1 = Ok users_dict →
  _filter_events_for_clients handler users_dict [event] = Ok filtered_by_user →
  get_state_for_event (store this) (event_id event) = Ok member_state →
  c ∈ evaluator_calls
        (action_for_event_by_user event handler
           (mkHeap this stale_actions stale_cache [])).2 →
  ∃ rules rule x xs,
    (call_uid c, rules) ∈ rules_by_user this
    ∧ rule ∈ rules
    ∧ disabled rule = false
    ∧ call_cond c ∈ conditions rule
    ∧ call_display_name c
      = foldl display_name_step ∅ member_state !! call_uid c
    ∧ filtered_by_user !! call_uid c = Some (x :: xs).
Proof.
  intros Hguests Hfilter Hstate. rewrite action_for_event_by_user_eq. simpl.
  rewrite Hguests, Hfilter, Hstate.
  pose proof (user_loop_calls_from
    (mkPushRuleEvaluatorForEvent event (length (users_in_room this)))
    filtered_by_user (foldl display_name_step ∅ member_state)
    (rules_by_user this) (fresh_heap this) (Forall_nil_2 _)) as Hl.
  rewrite Forall_forall in Hl.
  destruct (for_in _ _ _) as [[f|e] h']; simpl in *; intros Hin; by apply Hl.
Qed.

Lemma cache_answers_condition_step evaluator uid display_name cond :
  inv (λ h, ∀ i b, condition_cache h !! i = Some b →
              ∃ c, c ∈ evaluator_calls h
                   ∧ cache_key (call_cond c) = Some i
                   ∧ call_result evaluator c = Ok b)
      (λ _ h, ∀ i b, condition_cache h !! i = Some b →
              ∃ c, c ∈ evaluator_calls h
                   ∧ cache_key (call_cond c) = Some i
                   ∧ call_result evaluator c = Ok b)
      (condition_step evaluator uid display_name cond).
Proof.
  intros h Hh. destruct (cached_result cond h) as [[|]|] eqn:E.
  - by rewrite condition_step_cached_true.
  - by rewrite condition_step_cached_false.
  - rewrite condition_step_fresh by done.
    assert (∀ i b, condition_cache h !! i = Some b →
              ∃ c, c ∈ evaluator_calls (invoked cond uid display_name h)
                   ∧ cache_key (call_cond c) = Some i
                   ∧ call_result evaluator c = Ok b) as Hold.
    { intros i b Hi. destruct (Hh i b Hi) as (c & Hin & Hc).
      exists c. split; [|done]. simpl. apply elem_of_app. by left. }
    destruct (evaluator_matches evaluator cond uid display_name) as [res|e] eqn:Em.
    + assert (∀ i b,
                condition_cache (memoize cond res (invoked cond uid display_name h))
                  !! i = Some b →
                ∃ c, c ∈ evaluator_calls
                           (memoize cond res (invoked cond uid display_name h))
                     ∧ cache_key (call_cond c) = Some i
                     ∧ call_result evaluator c = Ok b) as Hnew.
      { intros i b. rewrite evaluator_calls_memoize. unfold memoize.
        destruct (cache_key cond) as [k|] eqn:Hk; simpl; [|apply Hold].
        destruct (decide (k = i)) as [->|Hne].
        - rewrite lookup_insert_eq. intros [= <-].
          exists (mkCall cond uid display_name). split.
          + apply elem_of_app. right. by apply list_elem_of_singleton.
          + split; [done|]. unfold call_result. simpl. done.
        - rewrite lookup_insert_ne by done. apply Hold. }
      by destruct res.
    + done.
Qed.

Lemma condition_step_cache_kept evaluator uid display_name cond i b :
  inv (λ h, condition_cache h !! i = Some b)
      (λ _ h, condition_cache h !! i = Some b)
      (condition_step evaluator uid display_name cond).
Proof.
  intros h Hh. destruct (cached_result cond h) as [[|]|] eqn:E.
  - by rewrite condition_step_cached_true.
  - by rewrite condition_step_cached_false.
  - rewrite condition_step_fresh by done.
    assert (∀ res, condition_cache
                     (memoize cond res (invoked cond uid display_name h)) !! i
                   = Some b) as Hnew.
    { intros res. unfold memoize. unfold cached_result in E.
      destruct (cache_key cond) as [k|]; simpl; [|done].
      rewrite lookup_insert_ne; [done|]. intros ->. congruence. }
    destruct (evaluator_matches _ _ _ _) as [[|]|e]; auto.
Qed.

(** X8. The condition cache only ever holds what the evaluator answered:
    after an invocation, a boolean held for an identifier is the answer
    of a recorded invocation on a condition carrying that identifier.
    And a cached boolean is never overwritten: what the cache holds for
    an identifier before the loop over the users, it still holds
    after it. *)
Theorem cache_holds_evaluator_answers :
  (∀ event handler this stale_actions stale_cache i b,
     condition_cache
       (action_for_event_by_user event handler
          (mkHeap this stale_actions stale_cache [])).2 !! i = Some b →
     is_ok (action_for_event_by_user event handler
              (mkHeap this stale_actions stale_cache [])).1 = true →
     ∃ c, c ∈ evaluator_calls
                (action_for_event_by_user event handler
                   (mkHeap this stale_actions stale_cache [])).2
          ∧ cache_key (call_cond c) = Some i
          ∧ call_result
              (mkPushRuleEvaluatorForEvent event (length (users_in_room this))) c
            = Ok b)
  ∧ (∀ evaluator filtered_by_user display_names items h i b,
       condition_cache h !! i = Some b →
       condition_cache
         (for_in (user_step evaluator filtered_by_user display_names) items h).2
         !! i = Some b).
Proof.
  split.
  - intros event handler this stale_actions stale_cache i b.
    rewrite action_for_event_by_user_eq. simpl.
    destruct (are_guests _ _) as [users_dict|e]; [|done].
    destruct (_filter_events_for_clients _ _ _) as [filtered_by_user|e]; [|done].
    destruct (get_state_for_event _ _) as [member_state|e]; [|done].
    pose (evaluator :=
            mkPushRuleEvaluatorForEvent event (length (users_in_room this))).
    pose (G := λ h0 : Heap, ∀ j v, condition_cache h0 !! j = Some v →
                 ∃ c, c ∈ evaluator_calls h0
                      ∧ cache_key (call_cond c) = Some j
                      ∧ call_result evaluator c = Ok v).
    pose proof (inv_user_loop G (λ _, G) evaluator
      filtered_by_user (foldl display_name_step ∅ member_state)
      (rules_by_user this)) as Hl.
    specialize (Hl ltac:(done)).
    specialize (Hl ltac:(by intros item acts h0 _ _ H0 j v;
                            rewrite condition_cache_record_actions,
                                    evaluator_calls_record_actions; apply H0)).
    specialize (Hl (cache_answers_condition_step evaluator) (fresh_heap this)).
    specialize (Hl ltac:(by intros j v; simpl; rewrite lookup_empty)).
    fold evaluator. destruct (for_in _ _ _) as [[f|e] h']; simpl; [|done].
    intros Hi _. by apply Hl.
  - intros evaluator filtered_by_user display_names items h i b Hi.
    pose (G := λ h0 : Heap, condition_cache h0 !! i = Some b).
    pose proof (inv_user_loop G (λ _, G) evaluator filtered_by_user
                  display_names items) as Hl.
    specialize (Hl ltac:(done)).
    specialize (Hl ltac:(by intros item acts h0 _ _ H0; unfold G;
                            rewrite condition_cache_record_actions)).
    specialize (Hl (λ uid display_name cond,
                      condition_step_cache_kept evaluator uid display_name cond i b)
                   h Hi).
    by destruct (for_in _ items h) as [[f|e] h'].
Qed.

(** ** When the check is right *)

Lemma cached_result_memoize cond cond' res uid display_name h :
  cached_result cond' (memoize cond res (invoked cond uid display_name h)) =
    match cache_key cond' with
    | Some k => if decide (cache_key cond = Some k) then Some res
                else cached_result cond' h
    | None => None
    end.
Proof.
  unfold cached_result, memoize.
  destruct (cache_key cond') as [k|]; [|done].
  destruct (cache_key cond) as [k0|]; simpl.
  - destruct (decide (Some k0 = Some k)) as [Hk|Hk].
    + inversion Hk; subst. by rewrite lookup_insert_eq.
    + rewrite lookup_insert_ne; [done|]. congruence.
  - by destruct (decide (None = Some k)).
Qed.

Lemma condition_loop_correct evaluator uid display_name conds h :
  (∀ c, c ∈ conds →
        is_ok (evaluator_matches evaluator c uid display_name) = true) →
  (∀ c b, c ∈ conds → cached_result c h = Some b →
          b = true ∧ evaluator_matches evaluator c uid display_name = Ok true) →
  (∀ c c' k, c ∈ conds → c' ∈ conds →
             cache_key c = Some k → cache_key c' = Some k →
             evaluator_matches evaluator c uid display_name
             = evaluator_matches evaluator c' uid display_name) →
  (for_in (condition_step evaluator uid display_name) conds h).1 =
    Ok (if forallb (λ c, answers_true
                           (evaluator_matches evaluator c uid display_name)) conds
        then Continue else Return false).
Proof.
  revert h. induction conds as [|c conds IH]; intros h Hok Hcache Hsame; [done|].
  simpl forallb.
  destruct (cached_result c h) as [b|] eqn:E.
  - destruct (Hcache c b ltac:(left) E) as [-> Hm].
    rewrite (for_in_cons_continue _ _ _ _ _
               (condition_step_cached_true _ _ _ _ _ E)), Hm. simpl.
    apply IH.
    + intros c' Hin. apply Hok. by right.
    + intros c' b' Hin. apply Hcache. by right.
    + intros c1 c2 k H1 H2. apply Hsame; by right.
  - pose proof (condition_step_fresh evaluator uid display_name c h E) as Hstep.
    pose proof (Hok c ltac:(left)) as Hc.
    destruct (evaluator_matches evaluator c uid display_name) as [[|]|e] eqn:Em;
      [| |done].
    + rewrite (for_in_cons_continue _ _ _ _ _ Hstep). simpl. apply IH.
      * intros c' Hin. apply Hok. by right.
      * intros c' b' Hin. rewrite cached_result_memoize.
        destruct (cache_key c') as [k|] eqn:Hk'; [|done].
        case_decide as Hk.
        -- intros [= <-]. split; [done|].
           rewrite <- (Hsame c c' k ltac:(left) ltac:(by right) Hk Hk'). done.
        -- intros Hb. apply (Hcache c' b'); [by right|done].
      * intros c1 c2 k H1 H2. apply Hsame; by right.
    + by rewrite (for_in_cons_return _ _ _ _ _ _ Hstep).
Qed.

Lemma _condition_checker_correct evaluator conds uid display_name h :
  (∀ c, c ∈ conds →
        is_ok (evaluator_matches evaluator c uid display_name) = true) →
  (∀ c b, c ∈ conds → cached_result c h = Some b →
          b = true ∧ evaluator_matches evaluator c uid display_name = Ok true) →
  (∀ c c' k, c ∈ conds → c' ∈ conds →
             cache_key c = Some k → cache_key c' = Some k →
             evaluator_matches evaluator c uid display_name
             = evaluator_matches evaluator c' uid display_name) →
  (_condition_checker evaluator conds uid display_name h).1 =
    Ok (forallb (λ c, answers_true
                        (evaluator_matches evaluator c uid display_name)) conds).
Proof.
  intros Hok Hcache Hsame.
  pose proof (condition_loop_correct evaluator uid display_name conds h
                Hok Hcache Hsame) as Hl.
  rewrite _condition_checker_eq.
  destruct (for_in _ conds h) as [[f|e] h']; simpl in *; [|done].
  inversion Hl; subst. by destruct (forallb _ conds).
Qed.

(** X9. Where the check is right: when the evaluator answers for every
    condition of the sequence, the cache holds no [False] for any of
    them and holds [True] only where the evaluator answers true for this
    user, and conditions of the sequence that share an identifier get
    the same answer, [_condition_checker] returns true exactly when the
    evaluator answers true for every condition of the sequence. *)
Theorem condition_checker_all_match evaluator conds uid display_name h :
  (∀ c, c ∈ conds →
        is_ok (evaluator_matches evaluator c uid display_name) = true) →
  (∀ c b, c ∈ conds → cached_result c h = Some b →
          b = true ∧ evaluator_matches evaluator c uid display_name = Ok true) →
  (∀ c c' k, c ∈ conds → c' ∈ conds →
             cache_key c = Some k → cache_key c' = Some k →
             evaluator_matches evaluator c uid display_name
             = evaluator_matches evaluator c' uid display_name) →
  (_condition_checker evaluator conds uid display_name h).1 =
    Ok (forallb (λ c, answers_true
                        (evaluator_matches evaluator c uid display_name)) conds).
Proof. apply _condition_checker_correct. Qed.

(** ** When the invocation returns *)

Lemma rule_loop_returns evaluator uid display_name rules h :
  (∀ rule cond, rule ∈ rules → disabled rule = false → cond ∈ conditions rule →
     is_ok (evaluator_matches evaluator cond uid display_name) = true) →
  is_ok (for_in (rule_step evaluator uid display_name) rules h).1 = true.
Proof.
  intros Hok.
  assert (inv (λ _, True) (λ _ _, False)
            (for_in (rule_step evaluator uid display_name) rules)) as Hinv.
  { apply inv_for_in. intros rule Hrule.
    apply inv_rule_step_of_rule; [done|]. intros Hen cond Hcond h0 _.
    pose proof (Hok rule cond Hrule Hen Hcond) as Hc.
    destruct (cached_result cond h0) as [[|]|] eqn:E.
    - by rewrite condition_step_cached_true.
    - by rewrite condition_step_cached_false.
    - rewrite condition_step_fresh by done.
      by destruct (evaluator_matches _ _ _ _) as [[|]|e]. }
  specialize (Hinv h I). by destruct (for_in _ rules h) as [[f|e] h'].
Qed.

Lemma user_loop_returns evaluator filtered_by_user display_names items h :
  (∀ uid, uid ∈ items.*1 → is_Some (filtered_by_user !! uid)) →
  (∀ uid rules rule cond,
     (uid, rules) ∈ items → rule ∈ rules → disabled rule = false →
     cond ∈ conditions rule →
     is_ok (evaluator_matches evaluator cond uid (display_names !! uid)) = true) →
  is_ok (for_in (user_step evaluator filtered_by_user display_names) items h).1
  = true.
Proof.
  intros Hvis Hok.
  assert (inv (λ _, True) (λ _ _, False)
            (for_in (user_step evaluator filtered_by_user display_names) items))
    as Hinv.
  { apply inv_for_in. intros [uid rules] Hitem h0 _.
    destruct (Hvis uid (list_elem_of_fmap_2 fst _ _ Hitem)) as [[|x xs] Hf].
    - by rewrite user_step_skip.
    - rewrite (user_step_visible _ _ _ _ _ x xs) by done.
      pose proof (rule_loop_returns evaluator uid (display_names !! uid) rules h0
                    (λ rule cond, Hok uid rules rule cond Hitem)) as Hr.
      by destruct (for_in _ rules h0) as [[f|e] h']. }
  specialize (Hinv h I). by destruct (for_in _ items h) as [[f|e] h'].
Qed.

(** X10. Nothing but the collaborators makes an invocation fail: when the
    guest lookup, the filter and the state lookup answer, the filter's
    answer has an entry for every user of the rule-set mapping, and the
    evaluator answers for the conditions of the users' enabled rules, the
    invocation returns an action dict. *)
Theorem evaluation_returns
    event handler h users_dict filtered_by_user member_state :
  are_guests (store (self h)) (rules_by_user (self h)).*1 = Ok users_dict →
  _filter_events_for_clients handler users_dict [event] = Ok filtered_by_user →
  get_state_for_event (store (self h)) (event_id event) = Ok member_state →
  (∀ uid, uid ∈ (rules_by_user (self h)).*1 → is_Some (filtered_by_user !! uid)) →
  (∀ uid rules rule cond,
     (uid, rules) ∈ rules_by_user (self h) → rule ∈ rules →
     disabled rule = false → cond ∈ conditions rule →
     is_ok (evaluator_matches
              (mkPushRuleEvaluatorForEvent event (length (users_in_room (self h))))
              cond uid (foldl display_name_step ∅ member_state !! uid)) = true) →
  is_ok (action_for_event_by_user event handler h).1 = true.
Proof.
  intros Hguests Hfilter Hstate Hvis Hok.
  rewrite action_for_event_by_user_eq, Hguests, Hfilter, Hstate.
  pose proof (user_loop_returns _ _ _ _ (fresh_heap (self h)) Hvis Hok) as Hl.
  by destruct (for_in _ _ _) as [[f|e] h'].
Qed.

(** ** How often the evaluator is asked *)

Lemma for_in_calls_bound {A R} (body : A → M (flow R)) (cost : A → nat) l h :
  (∀ x h0, length (evaluator_calls (body x h0).2)
           ≤ length (evaluator_calls h0) + cost x) →
  length (evaluator_calls (for_in body l h).2)
  ≤ length (evaluator_calls h) + sum_list (cost <$> l).
Proof.
  intros Hb. revert h. induction l as [|x l IH]; intros h; simpl; [lia|].
  unfold bind. specialize (Hb x h) as Hx.
  destruct (body x h) as [[[| |r]|e] h1]; simpl in *; try lia.
  specialize (IH h1). unfold fmap in IH. lia.
Qed.

Lemma sum_list_ones {A} (l : list A) : sum_list ((λ _, 1) <$> l) = length l.
Proof.
  induction l as [|x l IH]; [done|]. rewrite fmap_cons. simpl. f_equal. exact IH.
Qed.

Lemma rule_step_calls_bound evaluator uid display_name rule h :
  length (evaluator_calls (rule_step evaluator uid display_name rule h).2)
  ≤ length (evaluator_calls h)
    + (if disabled rule then 0 else length (conditions rule)).
Proof.
  unfold rule_step. destruct (disabled rule); simpl; [lia|].
  pose proof (for_in_calls_bound (condition_step evaluator uid display_name)
                (λ _, 1) (conditions rule) h) as Hc.
  rewrite sum_list_ones in Hc.
  specialize (Hc ltac:(intros cond h0;
    destruct (condition_step_calls evaluator uid display_name cond h0) as [-> | ->];
    rewrite ?length_app; simpl; lia)).
  unfold bind. rewrite _condition_checker_eq.
  destruct (for_in _ (conditions rule) h) as [[[| |[|]]|e] h1]; simpl in *;
    rewrite ?evaluator_calls_record_actions; lia.
Qed.

Lemma user_step_calls_bound evaluator filtered_by_user display_names
    (item : string * list Rule) h :
  length (evaluator_calls
            (user_step evaluator filtered_by_user display_names item h).2)
  ≤ length (evaluator_calls h)
    + match filtered_by_user !! item.1 with
      | Some (_ :: _) => conditions_of_rules item.2
      | Some [] | None => 0
      end.
Proof.
  destruct item as [uid rules]. simpl.
  destruct (filtered_by_user !! uid) as [[|x xs]|] eqn:E.
  - rewrite user_step_skip by done. simpl. lia.
  - rewrite (user_step_visible _ _ _ _ _ x xs) by done.
    pose proof (for_in_calls_bound
                  (rule_step evaluator uid (display_names !! uid))
                  (λ rule, if disabled rule then 0 else length (conditions rule))
                  rules h (rule_step_calls_bound _ _ _)) as Hr.
    unfold conditions_of_rules.
    by destruct (for_in _ rules h) as [[f|e] h'].
  - rewrite user_step_key_error by done. simpl. lia.
Qed.

(** X11. An invocation asks the evaluator at most as many times as there
    are conditions in the enabled rules of the users for whom the filter
    answered a visible event. *)
Theorem evaluator_calls_bounded
    event handler this stale_actions stale_cache users_dict filtered_by_user :
  are_guests (store this) (rules_by_user this).*1 = Ok users_dict →
  _filter_events_for_clients handler users_dict [event] = Ok filtered_by_user →
  length (evaluator_calls
            (action_for_event_by_user event handler
               (mkHeap this stale_actions stale_cache [])).2)
  ≤ conditions_of_users filtered_by_user (rules_by_user this).
Proof.
  intros Hguests Hfilter. rewrite action_for_event_by_user_eq. simpl.
  rewrite Hguests, Hfilter.
  destruct (get_state_for_event _ _) as [member_state|e]; [|simpl; lia].
  pose proof (for_in_calls_bound
    (user_step (mkPushRuleEvaluatorForEvent event (length (users_in_room this)))
       filtered_by_user (foldl display_name_step ∅ member_state))
    (λ item : string * list Rule,
       match filtered_by_user !! item.1 with
       | Some (_ :: _) => conditions_of_rules item.2
       | Some [] | None => 0
       end)
    (rules_by_user this) (fresh_heap this) (user_step_calls_bound _ _ _)) as Hl.
  unfold conditions_of_users.
  by destruct (for_in _ _ _) as [[f|e] h'].
Qed.

(** ** The code against first-match semantics *)

Lemma no_false_condition_step evaluator uid display_name cond :
  (cache_key cond ≠ None →
   evaluator_matches evaluator cond uid display_name = Ok true) →
  inv no_false_cached (λ _ _, True)
      (condition_step evaluator uid display_name cond).
Proof.
  intros Hkeyed h Hh. destruct (cached_result cond h) as [[|]|] eqn:E.
  - by rewrite condition_step_cached_true.
  - by rewrite condition_step_cached_false.
  - rewrite condition_step_fresh by done.
    destruct (evaluator_matches evaluator cond uid display_name) as [res|e] eqn:Em;
      [|by destruct e].
    assert (no_false_cached (memoize cond res (invoked cond uid display_name h)))
      as Hnew.
    { intros i. unfold memoize.
      destruct (cache_key cond) as [k|] eqn:Hk; simpl; [|apply Hh].
      destruct (decide (k = i)) as [->|Hne].
      - rewrite lookup_insert_eq. specialize (Hkeyed ltac:(done)).
        intros [= ->]. by inversion Hkeyed.
      - rewrite lookup_insert_ne by done. apply Hh. }
    by destruct res.
Qed.

Lemma checker_first_match evaluator uid display_name conds h :
  no_false_cached h →
  (∀ c, c ∈ conds →
        is_ok (evaluator_matches evaluator c uid display_name) = true
        ∧ (cache_key c ≠ None →
           evaluator_matches evaluator c uid display_name = Ok true)) →
  ∃ h', _condition_checker evaluator conds uid display_name h =
          (Ok (forallb (λ c, answers_true
                               (evaluator_matches evaluator c uid display_name))
                 conds), h')
        ∧ no_false_cached h'
        ∧ actions_by_user h' = actions_by_user h.
Proof.
  intros Hh Hc.
  assert ((_condition_checker evaluator conds uid display_name h).1 =
            Ok (forallb (λ c, answers_true
                                (evaluator_matches evaluator c uid display_name))
                  conds)) as Hres.
  { apply _condition_checker_correct.
    - intros c Hin. by apply Hc.
    - intros c b Hin Hb.
      assert (cache_key c ≠ None) as Hk.
      { unfold cached_result in Hb. by destruct (cache_key c). }
      destruct b.
      + split; [done|]. by apply Hc.
      + unfold cached_result in Hb. destruct (cache_key c) as [k|]; [|done].
        by destruct (Hh k).
    - intros c c' k Hin Hin' Hk Hk'.
      rewrite (proj2 (Hc c Hin)) by congruence.
      by rewrite (proj2 (Hc c' Hin')) by congruence. }
  assert (inv no_false_cached (λ _ _, True)
            (_condition_checker evaluator conds uid display_name)) as Hinv.
  { unfold _condition_checker. apply inv_bind.
    - apply inv_for_in. intros c Hin. apply no_false_condition_step. by apply Hc.
    - intros [| |r]; apply inv_ret. }
  specialize (Hinv h Hh).
  pose proof (_condition_checker_frame evaluator conds uid display_name h)
    as [_ Ha].
  destruct (_condition_checker evaluator conds uid display_name h) as [r h'].
  simpl in *. subst r. by exists h'.
Qed.

Lemma actions_by_user_record_actions uid acts h :
  actions_by_user (record_actions uid acts h) =
    match acts with
    | [] => actions_by_user h
    | a :: l => <[uid := a :: l]> (actions_by_user h)
    end.
Proof. by destruct acts. Qed.

Lemma rule_loop_first_match_semantics evaluator uid display_name rules h :
  no_false_cached h →
  (∀ rule c, rule ∈ rules → disabled rule = false → c ∈ conditions rule →
     is_ok (evaluator_matches evaluator c uid display_name) = true
     ∧ (cache_key c ≠ None →
        evaluator_matches evaluator c uid display_name = Ok true)) →
  ∃ f h', for_in (rule_step evaluator uid display_name) rules h = (Ok f, h')
          ∧ no_false_cached h'
          ∧ actions_by_user h' =
              match first_match evaluator uid display_name rules with
              | Some rule =>
                  match filter (λ a, a ≠ dont_notify) (actions rule) with
                  | [] => actions_by_user h
                  | a :: acts => <[uid := a :: acts]> (actions_by_user h)
                  end
              | None => actions_by_user h
              end.
Proof.
  revert h. induction rules as [|rule rules IH]; intros h Hh Hc.
  - exists Continue, h. by split.
  - change (first_match evaluator uid display_name (rule :: rules))
      with (if rule_matches evaluator uid display_name rule then Some rule
            else first_match evaluator uid display_name rules).
    unfold rule_matches at 1.
    destruct (disabled rule) eqn:Hen; cbn [negb andb].
    + rewrite (for_in_cons_continue _ _ _ _ _
                 (rule_step_disabled _ _ _ _ h Hen)).
      apply IH; [done|]. intros r c Hr. apply Hc. by right.
    + destruct (checker_first_match evaluator uid display_name (conditions rule) h
                  Hh (λ c, Hc rule c ltac:(left) Hen)) as (h1 & Hck & Hh1 & Ha1).
      destruct (forallb _ (conditions rule)) eqn:Hall.
      * rewrite (for_in_cons_break _ _ _ _ _ (rule_step_match _ _ _ _ _ _ Hen Hck)).
        eexists _, _. split; [done|]. split.
        -- intros i. rewrite condition_cache_record_actions. apply Hh1.
        -- by rewrite actions_by_user_record_actions, Ha1.
      * rewrite (for_in_cons_continue _ _ _ _ _
                   (rule_step_no_match _ _ _ _ _ _ Hen Hck)).
        rewrite <- Ha1. apply IH; [done|]. intros r c Hr. apply Hc. by right.
Qed.

Lemma user_loop_first_match_semantics
    evaluator filtered_by_user display_names items h :
  no_false_cached h →
  (∀ uid, uid ∈ items.*1 → is_Some (filtered_by_user !! uid)) →
  (∀ uid rules rule c,
     (uid, rules) ∈ items → rule ∈ rules → disabled rule = false →
     c ∈ conditions rule →
     is_ok (evaluator_matches evaluator c uid (display_names !! uid)) = true
     ∧ (cache_key c ≠ None →
        evaluator_matches evaluator c uid (display_names !! uid) = Ok true)) →
  ∃ f h', for_in (user_step evaluator filtered_by_user display_names) items h
          = (Ok f, h')
          ∧ actions_by_user h' =
              foldl (expected_step evaluator filtered_by_user display_names)
                (actions_by_user h) items.
Proof.
  revert h. induction items as [|[uid rules] items IH]; intros h Hh Hvis Hc.
  - by exists Continue, h.
  - assert (∀ h1, no_false_cached h1 →
              ∃ f h', for_in (user_step evaluator filtered_by_user display_names)
                        items h1 = (Ok f, h')
                      ∧ actions_by_user h' =
                          foldl (expected_step evaluator filtered_by_user
                                   display_names) (actions_by_user h1) items)
      as IH'.
    { intros h1 Hh1. apply IH; [done| |].
      - intros u Hu. apply Hvis. rewrite fmap_cons. by right.
      - intros u rs r c Hu. apply Hc. by right. }
    cbn [foldl].
    assert (expected_step evaluator filtered_by_user display_names
              (actions_by_user h) (uid, rules) =
            match filtered_by_user !! uid with
            | Some (_ :: _) =>
                match first_match evaluator uid (display_names !! uid) rules with
                | Some rule =>
                    match filter (λ a, a ≠ dont_notify) (actions rule) with
                    | [] => actions_by_user h
                    | a :: acts => <[uid := a :: acts]> (actions_by_user h)
                    end
                | None => actions_by_user h
                end
            | Some [] | None => actions_by_user h
            end) as -> by reflexivity.
    destruct (Hvis uid ltac:(rewrite fmap_cons; left)) as [[|x xs] Hf]; rewrite Hf.
    + rewrite (for_in_cons_continue _ _ _ _ _
                 (user_step_skip _ _ _ _ rules h Hf)).
      by apply IH'.
    + destruct (rule_loop_first_match_semantics evaluator uid
                  (display_names !! uid) rules h Hh
                  (λ r c, Hc uid rules r c ltac:(left)))
        as (f & h1 & Hscan & Hh1 & Ha1).
      assert (user_step evaluator filtered_by_user display_names (uid, rules) h
              = (Ok Continue, h1)) as Hstep.
      { rewrite (user_step_visible _ _ _ _ _ x xs) by done. by rewrite Hscan. }
      rewrite (for_in_cons_continue _ _ _ _ _ Hstep).
      destruct (IH' h1 Hh1) as (f' & h' & Hrest & Ha').
      exists f', h'. split; [done|]. rewrite Ha', Ha1.
      destruct (first_match evaluator uid (display_names !! uid) rules)
        as [rule|]; [|done].
      by destruct (filter _ (actions rule)).
Qed.

(** X12. The code against first-match semantics: when the collaborators
    answer, the filter's answer has an entry for every user of the
    rule-set mapping, the evaluator answers for the conditions of the
    users' enabled rules, and it answers true for those of them that
    carry a cache identifier, the action dict returned is the one of
    first-match semantics without a cache: each user with a visible
    event gets the actions, without [dont_notify], of the first enabled
    rule all of whose conditions the evaluator answers true for, when
    any action is left. *)
Theorem evaluation_is_first_match
    event handler h users_dict filtered_by_user member_state :
  are_guests (store (self h)) (rules_by_user (self h)).*1 = Ok users_dict →
  _filter_events_for_clients handler users_dict [event] = Ok filtered_by_user →
  get_state_for_event (store (self h)) (event_id event) = Ok member_state →
  (∀ uid, uid ∈ (rules_by_user (self h)).*1 → is_Some (filtered_by_user !! uid)) →
  (∀ uid rules rule c,
     (uid, rules) ∈ rules_by_user (self h) → rule ∈ rules →
     disabled rule = false → c ∈ conditions rule →
     is_ok (evaluator_matches
              (mkPushRuleEvaluatorForEvent event (length (users_in_room (self h))))
              c uid (foldl display_name_step ∅ member_state !! uid)) = true
     ∧ (cache_key c ≠ None →
        evaluator_matches
          (mkPushRuleEvaluatorForEvent event (length (users_in_room (self h))))
          c uid (foldl display_name_step ∅ member_state !! uid) = Ok true)) →
  (action_for_event_by_user event handler h).1 =
    Ok (expected_actions
          (mkPushRuleEvaluatorForEvent event (length (users_in_room (self h))))
          filtered_by_user (foldl display_name_step ∅ member_state)
          (rules_by_user (self h))).
Proof.
  intros Hguests Hfilter Hstate Hvis Hc.
  rewrite action_for_event_by_user_eq, Hguests, Hfilter, Hstate.
  destruct (user_loop_first_match_semantics _ _ _ _ (fresh_heap (self h))
              ltac:(by intros i; simpl; rewrite lookup_empty) Hvis Hc)
    as (f & h' & Hloop & Ha).
  rewrite Hloop. simpl. by rewrite Ha.
Qed.

(** ** The check on a condition cached as false *)

(** X13. What the check does on a cached [False]: when it reaches a
    condition for whose identifier the cache holds [False], it answers
    true, whatever conditions follow, with the heap as it was on reaching
    the condition: the evaluator is not asked again and the cache is not
    changed; and an enabled rule whose check goes this way ends the scan
    of the user's rules as the matching rule. *)
Theorem cached_false_answers_true
    evaluator uid display_name pre cond post h h1 :
  for_in (condition_step evaluator uid display_name) pre h = (Ok Continue, h1) →
  cached_result cond h1 = Some false →
  _condition_checker evaluator (pre ++ cond :: post) uid display_name h
  = (Ok true, h1)
  ∧ ∀ rule rules,
      disabled rule = false →
      conditions rule = pre ++ cond :: post →
      for_in (rule_step evaluator uid display_name) (rule :: rules) h =
        (Ok Break,
         record_actions uid (filter (λ a, a ≠ dont_notify) (actions rule)) h1).
Proof.
  intros Hpre Hc.
  pose proof (_condition_checker_cached_false evaluator uid display_name
                pre cond post h h1 Hpre Hc) as Hck.
  split; [done|]. intros rule rules Hen Hconds.
  apply for_in_cons_break, rule_step_match; [done|]. by rewrite Hconds.
Qed.

(** ** First-match semantics, user by user *)

Lemma expected_step_lookup evaluator filtered_by_user display_names
    (acc : gmap string (list Action)) (item : string * list Rule) k :
  expected_step evaluator filtered_by_user display_names acc item !! k =
    if decide (item.1 = k) then
      match expected_entry evaluator filtered_by_user display_names item with
      | Some acts => Some acts
      | None => acc !! k
      end
    else acc !! k.
Proof.
  unfold expected_step, expected_entry, entry_of.
  destruct (filtered_by_user !! item.1) as [[|x xs]|]; try by case_decide.
  destruct (first_match _ _ _ _) as [rule|]; [|by case_decide].
  destruct (filter _ (actions rule)) as [|a acts]; [by case_decide|].
  case_decide as Hk.
  - subst k. by rewrite lookup_insert_eq.
  - by rewrite lookup_insert_ne.
Qed.

Lemma foldl_expected_other evaluator filtered_by_user display_names
    (acc : gmap string (list Action)) (items : list (string * list Rule)) k :
  k ∉ items.*1 →
  foldl (expected_step evaluator filtered_by_user display_names) acc items !! k
  = acc !! k.
Proof.
  revert acc. induction items as [|item items IH]; intros acc Hk; [done|].
  rewrite fmap_cons, not_elem_of_cons in Hk. destruct Hk as [Hne Hk].
  cbn [foldl]. rewrite IH by done. rewrite expected_step_lookup.
  by rewrite decide_False by done.
Qed.

Lemma foldl_expected_lookup evaluator filtered_by_user display_names
    (acc : gmap string (list Action)) (items : list (string * list Rule)) k rules :
  NoDup items.*1 →
  (k, rules) ∈ items →
  foldl (expected_step evaluator filtered_by_user display_names) acc items !! k =
    match expected_entry evaluator filtered_by_user display_names (k, rules) with
    | Some acts => Some acts
    | None => acc !! k
    end.
Proof.
  revert acc. induction items as [|item items IH]; intros acc Hnd Hin;
    [by apply elem_of_nil in Hin|].
  rewrite fmap_cons in Hnd. apply NoDup_cons in Hnd as [Hnot Hnd].
  cbn [foldl]. apply elem_of_cons in Hin as [<-|Hin].
  - rewrite foldl_expected_other by done. rewrite expected_step_lookup.
    by rewrite decide_True by done.
  - rewrite IH by done. rewrite expected_step_lookup.
    rewrite decide_False; [done|]. intros Heq. apply Hnot. rewrite Heq.
    by apply (list_elem_of_fmap_2 fst) in Hin.
Qed.

(** X14. First-match semantics user by user: when the collaborators
    answer, the filter's answer covers the users of the rule-set mapping,
    the evaluator answers for the conditions of the users' enabled rules
    and answers true for those that carry a cache identifier, and the
    user ids of the mapping are distinct, the entry of a user of the
    mapping in the returned action dict depends on that user's rules
    alone: when the user can see the event it is what the first enabled
    rule all of whose conditions the evaluator answers true for leaves
    once [dont_notify] is dropped, and there is no entry when no rule
    matches, when nothing is left, or when the user cannot see the
    event. *)
Theorem evaluation_entry_is_first_match
    event handler h users_dict filtered_by_user member_state uid rules res :
  are_guests (store (self h)) (rules_by_user (self h)).*1 = Ok users_dict →
  _filter_events_for_clients handler users_dict [event] = Ok filtered_by_user →
  get_state_for_event (store (self h)) (event_id event) = Ok member_state →
  (∀ u, u ∈ (rules_by_user (self h)).*1 → is_Some (filtered_by_user !! u)) →
  (∀ u rs rule c,
     (u, rs) ∈ rules_by_user (self h) → rule ∈ rs →
     disabled rule = false → c ∈ conditions rule →
     is_ok (evaluator_matches
              (mkPushRuleEvaluatorForEvent event (length (users_in_room (self h))))
              c u (foldl display_name_step ∅ member_state !! u)) = true
     ∧ (cache_key c ≠ None →
        evaluator_matches
          (mkPushRuleEvaluatorForEvent event (length (users_in_room (self h))))
          c u (foldl display_name_step ∅ member_state !! u) = Ok true)) →
  NoDup (rules_by_user (self h)).*1 →
  (uid, rules) ∈ rules_by_user (self h) →
  (action_for_event_by_user event handler h).1 = Ok res →
  res !! uid =
    expected_entry
      (mkPushRuleEvaluatorForEvent event (length (users_in_room (self h))))
      filtered_by_user (foldl display_name_step ∅ member_state) (uid, rules).
Proof.
  intros Hguests Hfilter Hstate Hvis Hc Hnd Hin.
  rewrite action_for_event_by_user_eq, Hguests, Hfilter, Hstate.
  destruct (user_loop_first_match_semantics _ _ _ _ (fresh_heap (self h))
              ltac:(by intros i; simpl; rewrite lookup_empty) Hvis Hc)
    as (f & h' & Hloop & Ha).
  rewrite Hloop. simpl. intros [= <-]. rewrite Ha.
  rewrite (foldl_expected_lookup _ _ _ _ _ _ _ Hnd Hin).
  destruct (expected_entry _ _ _ _); [done|]. apply lookup_empty.
Qed.
End Proofs.

(** ** The claims on the example inputs *)

#[local] Existing Instance Sample.imports.

(** C1. The check answers true on a condition the cache holds as false:
    the loop is left by [break], and the statement after the loop is
    [return True].  With two users holding the same rule on the shared
    condition [c2], which the evaluator answers false for the event, the
    first user's check freshly evaluates it and answers false, the second
    user's check finds it in the cache and answers true, and the second
    user is notified. *)
Theorem cached_false_condition_checks_true :
  evaluator_matches Sample.example_evaluator Sample.cond_bye "@u2" None = Ok false
  ∧ (_condition_checker Sample.example_evaluator [Sample.cond_bye] "@u2" None
       (mkHeap Sample.room ∅ {[ "c2" := false ]} [])).1 = Ok true
  ∧ (_condition_checker Sample.example_evaluator [Sample.cond_bye] "@u2" None
       (mkHeap Sample.room ∅ ∅ [])).1 = Ok false
  ∧ (action_for_event_by_user Sample.hello_event Sample.handler_all
       (fresh_heap (Sample.room_of Sample.shared_rules Sample.example_store))).1
    = Ok {[ "@u2" := [Sample.notify] ]}.
Proof. repeat split; vm_compute; reflexivity. Qed.

(** Short-circuit on a check that passes [cond_any], finds [cond_bye] false
    and never reaches the condition whose evaluation would fail. *)
Lemma short_circuit_evaluation_witness :
  for_in (condition_step Sample.example_evaluator "@u1" (Some "One"))
    [Sample.cond_any] Sample.start = (Ok Continue, Sample.after_any)
  ∧ cached_result Sample.cond_bye Sample.after_any = None
  ∧ evaluator_matches Sample.example_evaluator Sample.cond_bye "@u1" (Some "One")
    = Ok false
  ∧ _condition_checker Sample.example_evaluator
      ([Sample.cond_any] ++ Sample.cond_bye :: [Sample.cond_unavailable])
      "@u1" (Some "One") Sample.start
    = _condition_checker Sample.example_evaluator
        ([Sample.cond_any] ++ [Sample.cond_bye]) "@u1" (Some "One") Sample.start
  ∧ evaluator_calls
      (_condition_checker Sample.example_evaluator
         ([Sample.cond_any] ++ Sample.cond_bye :: [Sample.cond_unavailable])
         "@u1" (Some "One") Sample.start).2
    = evaluator_calls Sample.after_any
      ++ [mkCall Sample.cond_bye "@u1" (Some "One")].
Proof.
  assert (for_in (condition_step Sample.example_evaluator "@u1" (Some "One"))
            [Sample.cond_any] Sample.start = (Ok Continue, Sample.after_any))
    as Hpre by reflexivity.
  assert (cached_result Sample.cond_bye Sample.after_any = None)
    as Hc by reflexivity.
  assert (evaluator_matches Sample.example_evaluator Sample.cond_bye "@u1"
            (Some "One") = Ok false) as Hm by reflexivity.
  destruct (short_circuit_evaluation Sample.example_evaluator "@u1" (Some "One")
              [Sample.cond_any] Sample.cond_bye [Sample.cond_unavailable]
              Sample.start Sample.after_any Hpre (or_intror (conj Hc Hm)))
    as (Heq & _ & Hcalls).
  exact (conj Hpre (conj Hc (conj Hm (conj Heq (Hcalls Hc))))).
Defined.

(** Two users sharing [c2]: one invocation; and a condition without
    identifier reached after [cond_any]. *)
Lemma evaluator_invocations_per_identifier_witness :
  invocations_for "c2"
    (evaluator_calls
       (action_for_event_by_user Sample.hello_event Sample.handler_all
          (mkHeap (Sample.room_of Sample.shared_rules Sample.example_store)
             ∅ ∅ [])).2) ≤ 1
  ∧ for_in (condition_step Sample.example_evaluator "@u1" (Some "One"))
      [Sample.cond_any] Sample.start = (Ok Continue, Sample.after_any)
  ∧ cache_key Sample.cond_mention = None
  ∧ _condition_checker Sample.example_evaluator
      ([Sample.cond_any] ++ Sample.cond_mention :: [Sample.cond_hello])
      "@u1" (Some "One") Sample.start
    = _condition_checker Sample.example_evaluator [Sample.cond_hello]
        "@u1" (Some "One")
        (invoked Sample.cond_mention "@u1" (Some "One") Sample.after_any).
Proof.
  assert (for_in (condition_step Sample.example_evaluator "@u1" (Some "One"))
            [Sample.cond_any] Sample.start = (Ok Continue, Sample.after_any))
    as Hpre by reflexivity.
  assert (cache_key Sample.cond_mention = None) as Hk by reflexivity.
  destruct evaluator_invocations_per_identifier as [Honce Hnokey].
  destruct (Hnokey Sample.example_evaluator "@u1" (Some "One")
              [Sample.cond_any] Sample.cond_mention [Sample.cond_hello]
              Sample.start Sample.after_any Hpre Hk) as (_ & _ & Heq).
  exact (conj (Honce _ ∅ ∅ Sample.hello_event Sample.handler_all "c2")
           (conj Hpre (conj Hk Heq))).
Defined.

(** C4. First match wins is lost to the cached [False]: [@u1] and [@u2]
    both hold [rule_r0], whose one condition carries the identifier [c2]
    and is false of the event; [@u2] holds [rule_hello] and [rule_all]
    after it, which both match the event.  The check of [rule_r0] for
    [@u1] evaluates the condition and answers false; for [@u2] it finds
    [False] in the cache, leaves the loop by [break] and answers true, so
    [rule_r0] ends the scan: the returned dict gives [@u2] the action of
    [rule_r0], not those of [rule_hello], the first rule that matches. *)
Theorem first_match_lost_to_cached_false :
  rule_matches Sample.example_evaluator "@u2" None Sample.rule_r0 = false
  ∧ rule_matches Sample.example_evaluator "@u2" None Sample.rule_hello = true
  ∧ rule_matches Sample.example_evaluator "@u2" None Sample.rule_all = true
  ∧ first_match Sample.example_evaluator "@u2" None
      [Sample.rule_r0; Sample.rule_hello; Sample.rule_all]
    = Some Sample.rule_hello
  ∧ entry_of (actions Sample.rule_hello) = Some [Sample.notify; Sample.sound]
  ∧ (action_for_event_by_user Sample.hello_event Sample.handler_all
       (fresh_heap (Sample.room_of Sample.shadowed_rules Sample.example_store))).1
    = Ok {[ "@u2" := [ActionStr "r0_action"] ]}.
Proof. repeat split; vm_compute; reflexivity. Qed.

(** [rule_off] is passed over; [rule_all] has no flag and is enabled. *)
Lemma disabled_rules_are_skipped_witness :
  enabled Sample.rule_off = Some false
  ∧ rule_step Sample.example_evaluator "@u1" (Some "One") Sample.rule_off
      Sample.after_u0 = (Ok Continue, Sample.after_u0)
  ∧ for_in (rule_step Sample.example_evaluator "@u1" (Some "One"))
      ([Sample.rule_bye] ++ Sample.rule_off :: [Sample.rule_hello])
      Sample.after_u0
    = for_in (rule_step Sample.example_evaluator "@u1" (Some "One"))
        ([Sample.rule_bye] ++ [Sample.rule_hello]) Sample.after_u0
  ∧ enabled Sample.rule_all = None
  ∧ rule_step Sample.example_evaluator "@u1" (Some "One") Sample.rule_all
      Sample.after_u0
    = rule_step Sample.example_evaluator "@u1" (Some "One")
        (mkRule "all" (Some true) [] [Sample.notify]) Sample.after_u0.
Proof.
  assert (enabled Sample.rule_off = Some false) as Hoff by reflexivity.
  assert (enabled Sample.rule_all = None) as Hnone by reflexivity.
  destruct (disabled_rules_are_skipped Sample.example_evaluator "@u1" (Some "One"))
    as (Hskip & Hscan & Hdefault).
  exact (conj Hoff
          (conj (Hskip Sample.rule_off Sample.after_u0 Hoff)
            (conj (Hscan [Sample.rule_bye] Sample.rule_off [Sample.rule_hello]
                     Sample.after_u0 Hoff)
              (conj Hnone (Hdefault Sample.rule_all Sample.after_u0 Hnone))))).
Defined.

(** [rule_all] has no conditions and wins as soon as the scan reaches it. *)
Lemma empty_conditions_always_match_witness :
  for_in (rule_step Sample.example_evaluator "@u1" (Some "One"))
    [Sample.rule_bye; Sample.rule_off] Sample.after_u0
  = (Ok Continue, Sample.after_two_rules)
  ∧ disabled Sample.rule_all = false
  ∧ conditions Sample.rule_all = []
  ∧ for_in (rule_step Sample.example_evaluator "@u1" (Some "One"))
      ([Sample.rule_bye; Sample.rule_off] ++ Sample.rule_all :: [Sample.rule_hello])
      Sample.after_u0
    = (Ok Break, record_actions "@u1" [Sample.notify] Sample.after_two_rules).
Proof.
  assert (for_in (rule_step Sample.example_evaluator "@u1" (Some "One"))
            [Sample.rule_bye; Sample.rule_off] Sample.after_u0
          = (Ok Continue, Sample.after_two_rules)) as Hpre by reflexivity.
  assert (disabled Sample.rule_all = false) as Hen by reflexivity.
  assert (conditions Sample.rule_all = []) as Hnil by reflexivity.
  destruct (empty_conditions_always_match Sample.example_evaluator "@u1"
              (Some "One") Sample.after_two_rules) as [_ Hwin].
  exact (conj Hpre (conj Hen (conj Hnil
           (Hwin [Sample.rule_bye; Sample.rule_off] Sample.rule_all
              [Sample.rule_hello] Sample.after_u0 Hpre Hen Hnil)))).
Defined.

(** The same evaluator object on a heap left over from earlier work. *)
Lemma bulk_evaluation_frame_witness :
  self Sample.stale = self Sample.start
  ∧ (action_for_event_by_user Sample.hello_event Sample.handler_all
       Sample.stale).1
    = (action_for_event_by_user Sample.hello_event Sample.handler_all
         Sample.start).1
  ∧ self (action_for_event_by_user Sample.hello_event Sample.handler_all
            Sample.start).2 = Sample.room.
Proof.
  assert (self Sample.stale = self Sample.start) as Hs by reflexivity.
  destruct (bulk_evaluation_frame Sample.hello_event Sample.handler_all
              Sample.start) as (Hself & Hdep & _).
  exact (conj Hs (conj (Hdep Sample.stale Hs) Hself)).
Defined.

(** The claim C2 as the specification states it fails where the filter's
    answer has no entry for a user of the rule-set mapping: [@u1] is
    missing from the answer, and the invocation raises [KeyError] instead
    of returning the entries of [@u0] and [@u2]. *)
Lemma missing_filter_entry_raises :
  "@u1" ∈ (rules_by_user (self Sample.start)).*1
  ∧ _filter_events_for_clients Sample.handler_omit_u1 Sample.users_dict
      [Sample.hello_event] = Ok Sample.u1_omitted
  ∧ Sample.u1_omitted !! "@u1" = None
  ∧ (action_for_event_by_user Sample.hello_event Sample.handler_omit_u1
       Sample.start).1 = Raise (KeyError "@u1").
Proof.
  split; [vm_compute; set_solver|]. repeat split; vm_compute; reflexivity.
Qed.

(** [@u1] with an empty sequence of visible events is skipped; [@u1]
    without an entry makes the invocation raise. *)
Lemma invisible_users_are_skipped_witness :
  (are_guests (store (self Sample.start)) (rules_by_user (self Sample.start)).*1
   = Ok Sample.users_dict
   ∧ _filter_events_for_clients Sample.handler_hide_u1 Sample.users_dict
       [Sample.hello_event] = Ok Sample.u1_hidden
   ∧ Sample.u1_hidden !! "@u1" = Some []
   ∧ (action_for_event_by_user Sample.hello_event Sample.handler_hide_u1
        Sample.start).1 = Ok {[ "@u0" := [Sample.notify] ]}
   ∧ ({[ "@u0" := [Sample.notify] ]} : gmap string (list Action)) !! "@u1" = None)
  ∧ (_filter_events_for_clients Sample.handler_omit_u1 Sample.users_dict
       [Sample.hello_event] = Ok Sample.u1_omitted
     ∧ Sample.u1_omitted !! "@u1" = None
     ∧ "@u1" ∈ (rules_by_user (self Sample.start)).*1
     ∧ is_ok (action_for_event_by_user Sample.hello_event Sample.handler_omit_u1
                Sample.start).1 = false).
Proof.
  assert (are_guests (store (self Sample.start))
            (rules_by_user (self Sample.start)).*1 = Ok Sample.users_dict)
    as Hguests by reflexivity.
  assert (_filter_events_for_clients Sample.handler_hide_u1 Sample.users_dict
            [Sample.hello_event] = Ok Sample.u1_hidden)
    as Hhide by (vm_compute; reflexivity).
  assert (_filter_events_for_clients Sample.handler_omit_u1 Sample.users_dict
            [Sample.hello_event] = Ok Sample.u1_omitted)
    as Homit by (vm_compute; reflexivity).
  assert (Sample.u1_hidden !! "@u1" = Some []) as Hempty by reflexivity.
  assert (Sample.u1_omitted !! "@u1" = None) as Hnone by reflexivity.
  assert ((action_for_event_by_user Sample.hello_event Sample.handler_hide_u1
             Sample.start).1 = Ok {[ "@u0" := [Sample.notify] ]})
    as Hres by (vm_compute; reflexivity).
  assert ("@u1" ∈ (rules_by_user (self Sample.start)).*1) as Hin.
  { apply (bool_decide_unpack _). vm_compute. exact I. }
  destruct (invisible_users_are_skipped Sample.hello_event Sample.handler_hide_u1
              Sample.start Sample.users_dict Sample.u1_hidden "@u1"
              Hguests Hhide) as [Hskip _].
  destruct (Hskip Hempty) as [_ Hentry].
  destruct (invisible_users_are_skipped Sample.hello_event Sample.handler_omit_u1
              Sample.start Sample.users_dict Sample.u1_omitted "@u1"
              Hguests Homit) as [_ Hraise].
  destruct (Hraise Hnone) as [_ Hfail].
  exact (conj (conj Hguests (conj Hhide (conj Hempty (conj Hres (Hentry _ Hres)))))
           (conj Homit (conj Hnone (conj Hin (Hfail Hin))))).
Defined.

(** The entry of [@u1], whose winning rule is [rule_hello]. *)
Lemma actions_without_dont_notify_witness :
  (action_for_event_by_user Sample.hello_event Sample.handler_all
     Sample.start).1
  = Ok {[ "@u0" := [Sample.notify]; "@u1" := [Sample.notify; Sample.sound] ]}
  ∧ ({[ "@u0" := [Sample.notify]; "@u1" := [Sample.notify; Sample.sound] ]}
       : gmap string (list Action)) !! "@u1"
    = entry_of [Sample.notify; dont_notify; Sample.sound]
  ∧ entry_of [dont_notify] = None.
Proof.
  assert (rules_by_user (self Sample.start)
          = [("@u0", [Sample.rule_all])]
            ++ ("@u1", [Sample.rule_bye; Sample.rule_off]
                       ++ Sample.rule_hello :: [Sample.rule_all])
               :: [("@u2", [Sample.rule_quiet; Sample.rule_all])])
    as Hrules by reflexivity.
  assert (NoDup (rules_by_user (self Sample.start)).*1) as Hnodup.
  { apply (bool_decide_unpack _). vm_compute. exact I. }
  assert (are_guests (store (self Sample.start))
            (rules_by_user (self Sample.start)).*1 = Ok Sample.users_dict)
    as Hguests by reflexivity.
  assert (_filter_events_for_clients Sample.handler_all Sample.users_dict
            [Sample.hello_event] = Ok Sample.all_visible)
    as Hfilter by (vm_compute; reflexivity).
  assert (get_state_for_event (store (self Sample.start))
            (event_id Sample.hello_event) = Ok [Sample.member_event])
    as Hstate by reflexivity.
  assert (Sample.all_visible !! "@u1" = Some [Sample.hello_event])
    as Hvis by reflexivity.
  assert (for_in
            (user_step
               (mkPushRuleEvaluatorForEvent Sample.hello_event
                  (length (users_in_room (self Sample.start))))
               Sample.all_visible
               (foldl display_name_step ∅ [Sample.member_event]))
            [("@u0", [Sample.rule_all])] (fresh_heap (self Sample.start))
          = (Ok Continue, Sample.after_u0)) as Hbefore by (vm_compute; reflexivity).
  assert (for_in
            (rule_step
               (mkPushRuleEvaluatorForEvent Sample.hello_event
                  (length (users_in_room (self Sample.start))))
               "@u1" (foldl display_name_step ∅ [Sample.member_event] !! "@u1"))
            [Sample.rule_bye; Sample.rule_off] Sample.after_u0
          = (Ok Continue, Sample.after_two_rules)) as Hpre by (vm_compute; reflexivity).
  assert (disabled Sample.rule_hello = false) as Hen by reflexivity.
  assert (_condition_checker
            (mkPushRuleEvaluatorForEvent Sample.hello_event
               (length (users_in_room (self Sample.start))))
            (conditions Sample.rule_hello) "@u1"
            (foldl display_name_step ∅ [Sample.member_event] !! "@u1")
            Sample.after_two_rules
          = (Ok true, Sample.after_check)) as Hc by (vm_compute; reflexivity).
  assert ((action_for_event_by_user Sample.hello_event Sample.handler_all
             Sample.start).1
          = Ok {[ "@u0" := [Sample.notify];
                  "@u1" := [Sample.notify; Sample.sound] ]})
    as Hres by (vm_compute; reflexivity).
  destruct (actions_without_dont_notify Sample.hello_event Sample.handler_all
              Sample.start Sample.users_dict Sample.all_visible
              [Sample.member_event] [("@u0", [Sample.rule_all])] "@u1"
              [Sample.rule_bye; Sample.rule_off] Sample.rule_hello
              [Sample.rule_all] [("@u2", [Sample.rule_quiet; Sample.rule_all])]
              Sample.hello_event [] Sample.after_u0 Sample.after_two_rules
              Sample.after_check Hrules Hnodup Hguests Hfilter Hstate Hvis
              Hbefore Hpre Hen Hc) as (Hentry & Hquiet & _).
  destruct (Hentry _ Hres) as (Hone & _).
  exact (conj Hres (conj Hone Hquiet)).
Defined.

(** Each source of failure in turn. *)
Lemma failures_propagate_witness :
  _get_rules "!room" ["@u1"; "@u2"] Sample.store_no_rules
  = Raise (CollaboratorError "bulk_get_push_rules")
  ∧ (Sample.bad_row ∈ default [] (({[ "@u1" := [Sample.good_row];
                                        "@u2" := [Sample.good_row; Sample.bad_row] ]}
                                      : gmap string (list RawRule)) !! "@u2")
     ∧ is_ok (json_loads_conditions (raw_conditions Sample.bad_row)) = false
     ∧ is_ok (decode_rule_json (stored Sample.bad_row)).1 = false
     ∧ is_ok (_get_rules "!room" ["@u1"; "@u2"] Sample.store_bad_row) = false)
  ∧ evaluator_for_room_id "!room" Sample.store_no_users
    = Raise (CollaboratorError "get_users_in_room")
  ∧ evaluator_for_room_id "!room" Sample.store_bad_row
    = Raise (ValueError "No JSON object could be decoded")
  ∧ (action_for_event_by_user Sample.hello_event Sample.handler_all
       (fresh_heap (Sample.room_of Sample.mixed_rules Sample.store_no_guests))).1
    = Raise (CollaboratorError "are_guests")
  ∧ (action_for_event_by_user Sample.hello_event Sample.handler_fails
       Sample.start).1
    = Raise (CollaboratorError "_filter_events_for_clients")
  ∧ (action_for_event_by_user Sample.hello_event Sample.handler_all
       (fresh_heap (Sample.room_of Sample.mixed_rules Sample.store_no_state))).1
    = Raise (CollaboratorError "get_state_for_event")
  ∧ (mkCall Sample.cond_unavailable "@u2" None
       ∈ evaluator_calls
           (action_for_event_by_user Sample.hello_event Sample.handler_all
              (mkHeap (Sample.room_of Sample.unavailable_rules Sample.example_store)
                 ∅ ∅ [])).2
     ∧ (action_for_event_by_user Sample.hello_event Sample.handler_all
          (mkHeap (Sample.room_of Sample.unavailable_rules Sample.example_store)
             ∅ ∅ [])).1
       = Raise (CollaboratorError "matches")).
Proof.
  destruct failures_propagate
    as (Hbulk & Hrow & Husers & Hload & Hguests & Hfilter & Hstate & Hcall).
  assert (Sample.bad_row
            ∈ default [] (({[ "@u1" := [Sample.good_row];
                              "@u2" := [Sample.good_row; Sample.bad_row] ]}
                            : gmap string (list RawRule)) !! "@u2")) as Hin.
  { vm_compute. right. left. }
  assert (is_ok (json_loads_conditions (raw_conditions Sample.bad_row)) = false)
    as Hbad by reflexivity.
  assert (mkCall Sample.cond_unavailable "@u2" None
            ∈ evaluator_calls
                (action_for_event_by_user Sample.hello_event Sample.handler_all
                   (mkHeap (Sample.room_of Sample.unavailable_rules
                              Sample.example_store) ∅ ∅ [])).2) as Hc.
  { vm_compute. right. left. }
  destruct (Hrow "!room" ["@u1"; "@u2"] Sample.store_bad_row _ "@u2"
              Sample.bad_row eq_refl ltac:(right; left) Hin (or_introl Hbad))
    as [Hdec Hrules].
  split; [exact (Hbulk "!room" ["@u1"; "@u2"] Sample.store_no_rules _ eq_refl)|].
  split; [exact (conj Hin (conj Hbad (conj Hdec Hrules)))|].
  split; [exact (Husers "!room" Sample.store_no_users _ eq_refl)|].
  split; [exact (Hload "!room" Sample.store_bad_row ["@u1"; "@u2"] _
                   eq_refl eq_refl)|].
  split; [exact (Hguests Sample.hello_event Sample.handler_all
                   (fresh_heap (Sample.room_of Sample.mixed_rules
                                  Sample.store_no_guests)) _ eq_refl)|].
  split; [exact (Hfilter Sample.hello_event Sample.handler_fails Sample.start
                   Sample.users_dict _ eq_refl eq_refl)|].
  split; [exact (Hstate Sample.hello_event Sample.handler_all
                   (fresh_heap (Sample.room_of Sample.mixed_rules
                                  Sample.store_no_state))
                   Sample.users_dict Sample.all_visible _ eq_refl
                   ltac:(vm_compute; reflexivity) eq_refl)|].
  exact (conj Hc (Hcall Sample.hello_event Sample.handler_all _ ∅ ∅ _ _ Hc eq_refl)).
Defined.

(** ** The code on the example inputs *)

(** Rule loading decodes the stored rows and merges the base rules in;
    a user without stored rules gets the base rules alone. *)
Example rule_loading_on_sample_store :
  evaluator_for_room_id "!room" Sample.example_store
  = Ok (mkBulkPushRuleEvaluator "!room"
          [("@u1", [mkRule "stored" None [] []; Sample.base_rule]);
           ("@u2", [Sample.base_rule])]
          ["@u1"; "@u2"] Sample.example_store).
Proof. reflexivity. Qed.

(** One event evaluated for the three users of the sample room: [@u0] is
    notified by its catch-all rule, [@u1] by [rule_hello] with
    [dont_notify] dropped, [@u2]'s winning rule leaves nothing; the shared
    conditions [c1] and [c2] are handed to the evaluator once each. *)
Example bulk_evaluation_on_sample_room :
  (action_for_event_by_user Sample.hello_event Sample.handler_all Sample.start).1
  = Ok {[ "@u0" := [Sample.notify]; "@u1" := [Sample.notify; Sample.sound] ]}
  ∧ evaluator_calls
      (action_for_event_by_user Sample.hello_event Sample.handler_all
         Sample.start).2
    = [mkCall Sample.cond_bye "@u1" (Some "One");
       mkCall Sample.cond_hello "@u1" (Some "One");
       mkCall Sample.cond_any "@u2" None].
Proof. split; vm_compute; reflexivity. Qed.

(** ** The further properties on the example inputs *)

(** Case analysis on membership in a list that is written out. *)
Ltac split_members :=
  repeat match goal with
         | H : _ ∈ [] |- _ => by apply elem_of_nil in H
         | H : _ ∈ _ :: _ |- _ => apply elem_of_cons in H as [H|H]; simplify_eq
         | H : _ ∈ conditions _ |- _ => progress cbn in H
         end.

(** Rules requested for [@u1], who has a stored row, and twice for [@u2],
    who has none: one entry each. *)
Lemma get_rules_keys_witness :
  _get_rules "!room" ["@u1"; "@u2"; "@u2"] Sample.example_store
  = Ok [("@u1", [mkRule "stored" None [] []; Sample.base_rule]);
        ("@u2", [Sample.base_rule])]
  ∧ NoDup ["@u1"; "@u2"]
  ∧ ("@u2" ∈ ["@u1"; "@u2"] ↔ "@u2" ∈ ["@u1"; "@u2"; "@u2"]).
Proof.
  assert (_get_rules "!room" ["@u1"; "@u2"; "@u2"] Sample.example_store
          = Ok [("@u1", [mkRule "stored" None [] []; Sample.base_rule]);
                ("@u2", [Sample.base_rule])]) as Hr by reflexivity.
  destruct (get_rules_keys "!room" ["@u1"; "@u2"; "@u2"] Sample.example_store
              _ Hr) as [Hnd Hkeys].
  exact (conj Hr (conj Hnd (Hkeys "@u2"))).
Defined.

(** [@u2] has no stored rows and gets the base rules alone. *)
Lemma get_rules_entries_witness :
  bulk_get_push_rules Sample.example_store ["@u1"; "@u2"]
  = Ok {[ "@u1" := [Sample.good_row] ]}
  ∧ _get_rules "!room" ["@u1"; "@u2"] Sample.example_store
    = Ok [("@u1", [mkRule "stored" None [] []; Sample.base_rule]);
          ("@u2", [Sample.base_rule])]
  ∧ ({[ "@u1" := [Sample.good_row] ]} : gmap string (list RawRule)) !! "@u2" = None
  ∧ [Sample.base_rule] = list_with_base_rules [].
Proof.
  assert (bulk_get_push_rules Sample.example_store ["@u1"; "@u2"]
          = Ok {[ "@u1" := [Sample.good_row] ]}) as Hrows by reflexivity.
  assert (_get_rules "!room" ["@u1"; "@u2"] Sample.example_store
          = Ok [("@u1", [mkRule "stored" None [] []; Sample.base_rule]);
                ("@u2", [Sample.base_rule])]) as Hr by reflexivity.
  assert (({[ "@u1" := [Sample.good_row] ]} : gmap string (list RawRule))
            !! "@u2" = None) as Hnone by reflexivity.
  destruct (get_rules_entries "!room" ["@u1"; "@u2"] Sample.example_store
              _ _ "@u2" [Sample.base_rule] Hrows Hr ltac:(right; left))
    as [_ Hbase].
  exact (conj Hrows (conj Hr (conj Hnone (Hbase Hnone)))).
Defined.

(** The evaluator built for the sample room. *)
Lemma evaluator_for_room_id_members_witness :
  evaluator_for_room_id "!room" Sample.example_store
  = Ok (mkBulkPushRuleEvaluator "!room"
          [("@u1", [mkRule "stored" None [] []; Sample.base_rule]);
           ("@u2", [Sample.base_rule])]
          ["@u1"; "@u2"] Sample.example_store)
  ∧ get_users_in_room Sample.example_store "!room" = Ok ["@u1"; "@u2"]
  ∧ NoDup ["@u1"; "@u2"].
Proof.
  assert (evaluator_for_room_id "!room" Sample.example_store
          = Ok (mkBulkPushRuleEvaluator "!room"
                  [("@u1", [mkRule "stored" None [] []; Sample.base_rule]);
                   ("@u2", [Sample.base_rule])]
                  ["@u1"; "@u2"] Sample.example_store)) as Hev by reflexivity.
  destruct (evaluator_for_room_id_members "!room" Sample.example_store _ Hev)
    as (_ & _ & Husers & Hnd & _).
  exact (conj Hev (conj Husers Hnd)).
Defined.

(** [@u1] carries the name of the last member event; the event that names
    [@u2] is not a member event. *)
Lemma display_names_from_member_events_witness :
  names_member Sample.member_event "@u1" "One"
  ∧ foldl display_name_step ∅ Sample.member_state !! "@u1" = Some "One"
  ∧ foldl display_name_step ∅ Sample.member_state !! "@u2" = None.
Proof.
  assert (names_member Sample.member_event "@u1" "One") as Hone.
  { repeat split. }
  assert (∀ ev nm, ev ∈ Sample.member_state → ¬ names_member ev "@u2" nm) as Hno.
  { intros ev nm Hin (_ & _ & Hty & Hk). unfold Sample.member_state in Hin.
    split_members; discriminate. }
  destruct (display_names_from_member_events Sample.member_state "@u1")
    as (_ & Hlast & _).
  destruct (display_names_from_member_events Sample.member_state "@u2")
    as (_ & _ & Hnone).
  exact (conj Hone
          (conj (Hlast [mkEvent "$a" "m.room.member" "@u1"
                          {[ "displayname" := "Uno" ]};
                        mkEvent "$b" "m.room.topic" "@u2"
                          {[ "displayname" := "Two" ]}]
                   Sample.member_event [] "One" eq_refl Hone
                   ltac:(intros ev' nm' Hin; by apply elem_of_nil in Hin))
                (Hnone Hno))).
Defined.

(** The entries of the sample room's action dict. *)
Lemma result_entries_nonempty_witness :
  (action_for_event_by_user Sample.hello_event Sample.handler_all Sample.start).1
  = Ok {[ "@u0" := [Sample.notify]; "@u1" := [Sample.notify; Sample.sound] ]}
  ∧ ({[ "@u0" := [Sample.notify]; "@u1" := [Sample.notify; Sample.sound] ]}
       : gmap string (list Action)) !! "@u1"
    = Some [Sample.notify; Sample.sound]
  ∧ [Sample.notify; Sample.sound] ≠ []
  ∧ dont_notify ∉ [Sample.notify; Sample.sound].
Proof.
  assert ((action_for_event_by_user Sample.hello_event Sample.handler_all
             Sample.start).1
          = Ok {[ "@u0" := [Sample.notify];
                  "@u1" := [Sample.notify; Sample.sound] ]})
    as Hres by (vm_compute; reflexivity).
  assert (({[ "@u0" := [Sample.notify]; "@u1" := [Sample.notify; Sample.sound] ]}
             : gmap string (list Action)) !! "@u1"
          = Some [Sample.notify; Sample.sound]) as Hl by reflexivity.
  exact (conj Hres (conj Hl
           (result_entries_nonempty Sample.hello_event Sample.handler_all
              Sample.start _ "@u1" _ Hres Hl))).
Defined.

Lemma result_entries_provenance_witness :
  (action_for_event_by_user Sample.hello_event Sample.handler_all Sample.start).1
  = Ok {[ "@u0" := [Sample.notify]; "@u1" := [Sample.notify; Sample.sound] ]}
  ∧ ∃ rules rule x xs,
      ("@u1", rules) ∈ Sample.mixed_rules
      ∧ rule ∈ rules
      ∧ disabled rule = false
      ∧ [Sample.notify; Sample.sound]
        = filter (λ a, a ≠ dont_notify) (actions rule)
      ∧ Sample.all_visible !! "@u1" = Some (x :: xs).
Proof.
  assert (are_guests (store (self Sample.start))
            (rules_by_user (self Sample.start)).*1 = Ok Sample.users_dict)
    as Hguests by reflexivity.
  assert (_filter_events_for_clients Sample.handler_all Sample.users_dict
            [Sample.hello_event] = Ok Sample.all_visible)
    as Hfilter by (vm_compute; reflexivity).
  assert ((action_for_event_by_user Sample.hello_event Sample.handler_all
             Sample.start).1
          = Ok {[ "@u0" := [Sample.notify];
                  "@u1" := [Sample.notify; Sample.sound] ]})
    as Hres by (vm_compute; reflexivity).
  exact (conj Hres
           (result_entries_provenance Sample.hello_event Sample.handler_all
              Sample.start Sample.users_dict Sample.all_visible _ "@u1"
              [Sample.notify; Sample.sound] Hguests Hfilter Hres eq_refl)).
Defined.

(** The invocation on [cond_hello] in the sample room is made for [@u1],
    under the name of [@u1]. *)
Lemma evaluator_calls_provenance_witness :
  mkCall Sample.cond_hello "@u1" (Some "One")
    ∈ evaluator_calls
        (action_for_event_by_user Sample.hello_event Sample.handler_all
           (mkHeap Sample.room ∅ ∅ [])).2
  ∧ ∃ rules rule x xs,
      ("@u1", rules) ∈ Sample.mixed_rules
      ∧ rule ∈ rules
      ∧ disabled rule = false
      ∧ Sample.cond_hello ∈ conditions rule
      ∧ Some "One" = foldl display_name_step ∅ [Sample.member_event] !! "@u1"
      ∧ Sample.all_visible !! "@u1" = Some (x :: xs).
Proof.
  assert (mkCall Sample.cond_hello "@u1" (Some "One")
            ∈ evaluator_calls
                (action_for_event_by_user Sample.hello_event Sample.handler_all
                   (mkHeap Sample.room ∅ ∅ [])).2) as Hc.
  { vm_compute. right. left. }
  assert (_filter_events_for_clients Sample.handler_all Sample.users_dict
            [Sample.hello_event] = Ok Sample.all_visible)
    as Hfilter by (vm_compute; reflexivity).
  exact (conj Hc
           (evaluator_calls_provenance Sample.hello_event Sample.handler_all
              Sample.room ∅ ∅ Sample.users_dict Sample.all_visible
              [Sample.member_event] _ eq_refl Hfilter eq_refl Hc)).
Defined.

(** The cache of the room with the shared rule holds the evaluator's
    answer for [c2]; a cache that holds [False] for [c1] before the loop
    holds it after. *)
Lemma cache_holds_evaluator_answers_witness :
  (condition_cache
     (action_for_event_by_user Sample.hello_event Sample.handler_all
        (mkHeap (Sample.room_of Sample.shared_rules Sample.example_store)
           ∅ ∅ [])).2 !! "c2" = Some false
   ∧ ∃ c, c ∈ evaluator_calls
                (action_for_event_by_user Sample.hello_event Sample.handler_all
                   (mkHeap (Sample.room_of Sample.shared_rules
                              Sample.example_store) ∅ ∅ [])).2
          ∧ cache_key (call_cond c) = Some "c2"
          ∧ call_result (mkPushRuleEvaluatorForEvent Sample.hello_event 2) c
            = Ok false)
  ∧ (condition_cache Sample.stale !! "c1" = Some false
     ∧ condition_cache
         (for_in (user_step Sample.example_evaluator Sample.all_visible
                    Sample.names) Sample.mixed_rules Sample.stale).2 !! "c1"
       = Some false).
Proof.
  destruct cache_holds_evaluator_answers as [Hanswers Hkept].
  assert (condition_cache
            (action_for_event_by_user Sample.hello_event Sample.handler_all
               (mkHeap (Sample.room_of Sample.shared_rules Sample.example_store)
                  ∅ ∅ [])).2 !! "c2" = Some false)
    as Hc2 by (vm_compute; reflexivity).
  assert (is_ok (action_for_event_by_user Sample.hello_event Sample.handler_all
                   (mkHeap (Sample.room_of Sample.shared_rules
                              Sample.example_store) ∅ ∅ [])).1 = true)
    as Hok by (vm_compute; reflexivity).
  assert (condition_cache Sample.stale !! "c1" = Some false) as Hc1 by reflexivity.
  exact (conj (conj Hc2 (Hanswers Sample.hello_event Sample.handler_all _ ∅ ∅
                           "c2" false Hc2 Hok))
           (conj Hc1 (Hkept Sample.example_evaluator Sample.all_visible
                        Sample.names Sample.mixed_rules Sample.stale "c1" false
                        Hc1))).
Defined.

(** A check from an empty cache: [cond_any] and [cond_hello] are true of
    the event, [cond_bye] is not. *)
Lemma condition_checker_all_match_witness :
  (_condition_checker Sample.example_evaluator
     [Sample.cond_any; Sample.cond_hello; Sample.cond_bye] "@u1" (Some "One")
     Sample.start).1
  = Ok (forallb (λ c, answers_true
                        (evaluator_matches Sample.example_evaluator c "@u1"
                           (Some "One")))
          [Sample.cond_any; Sample.cond_hello; Sample.cond_bye])
  ∧ forallb (λ c, answers_true
                    (evaluator_matches Sample.example_evaluator c "@u1"
                       (Some "One")))
      [Sample.cond_any; Sample.cond_hello; Sample.cond_bye] = false.
Proof.
  split; [|reflexivity].
  apply condition_checker_all_match.
  - intros c Hin. split_members; reflexivity.
  - intros c b Hin Hb. split_members; discriminate.
  - intros c c' k Hin Hin' Hk Hk'.
    split_members; try reflexivity; vm_compute in Hk, Hk'; congruence.
Defined.

(** The room whose one shared condition is true of the event. *)
Lemma evaluation_returns_witness :
  is_ok (action_for_event_by_user Sample.hello_event Sample.handler_all
           (fresh_heap Sample.plain_room)).1 = true.
Proof.
  apply (evaluation_returns Sample.hello_event Sample.handler_all
           (fresh_heap Sample.plain_room) Sample.plain_users_dict
           Sample.plain_visible [Sample.member_event]).
  - reflexivity.
  - vm_compute; reflexivity.
  - reflexivity.
  - intros uid Hin. change (uid ∈ ["@u1"; "@u2"]) in Hin.
    split_members; by eexists.
  - intros uid rules rule c Hitem Hrule Hen Hcond.
    change ((uid, rules) ∈ Sample.plain_rules) in Hitem.
    unfold Sample.plain_rules in Hitem.
    split_members; try discriminate; reflexivity.
Defined.

Lemma evaluator_calls_bounded_witness :
  length (evaluator_calls
            (action_for_event_by_user Sample.hello_event Sample.handler_all
               (mkHeap Sample.room ∅ ∅ [])).2)
  ≤ conditions_of_users Sample.all_visible Sample.mixed_rules
  ∧ conditions_of_users Sample.all_visible Sample.mixed_rules = 3.
Proof.
  split; [|reflexivity].
  apply (evaluator_calls_bounded Sample.hello_event Sample.handler_all
           Sample.room ∅ ∅ Sample.users_dict Sample.all_visible).
  - reflexivity.
  - vm_compute; reflexivity.
Defined.

Lemma evaluation_is_first_match_witness :
  (action_for_event_by_user Sample.hello_event Sample.handler_all
     (fresh_heap Sample.plain_room)).1
  = Ok (expected_actions (mkPushRuleEvaluatorForEvent Sample.hello_event 2)
          Sample.plain_visible (foldl display_name_step ∅ [Sample.member_event])
          Sample.plain_rules)
  ∧ expected_actions (mkPushRuleEvaluatorForEvent Sample.hello_event 2)
      Sample.plain_visible (foldl display_name_step ∅ [Sample.member_event])
      Sample.plain_rules
    = {[ "@u1" := [Sample.notify; Sample.sound] ]}.
Proof.
  split; [|vm_compute; reflexivity].
  apply (evaluation_is_first_match Sample.hello_event Sample.handler_all
           (fresh_heap Sample.plain_room) Sample.plain_users_dict
           Sample.plain_visible [Sample.member_event]).
  - reflexivity.
  - vm_compute; reflexivity.
  - reflexivity.
  - intros uid Hin. change (uid ∈ ["@u1"; "@u2"]) in Hin.
    split_members; by eexists.
  - intros uid rules rule c Hitem Hrule Hen Hcond.
    change ((uid, rules) ∈ Sample.plain_rules) in Hitem.
    unfold Sample.plain_rules in Hitem.
    split_members; try discriminate; split; try reflexivity; intros Hk; by destruct Hk.
Defined.

(** A check that reaches [cond_bye] while the cache holds [False] for it. *)
Lemma cached_false_answers_true_witness :
  for_in (condition_step Sample.example_evaluator "@u2" None)
    [Sample.cond_any] Sample.bye_cached
  = (Ok Continue, Sample.bye_cached_after_any)
  ∧ cached_result Sample.cond_bye Sample.bye_cached_after_any = Some false
  ∧ _condition_checker Sample.example_evaluator
      ([Sample.cond_any] ++ Sample.cond_bye :: [Sample.cond_unavailable])
      "@u2" None Sample.bye_cached
    = (Ok true, Sample.bye_cached_after_any).
Proof.
  assert (for_in (condition_step Sample.example_evaluator "@u2" None)
            [Sample.cond_any] Sample.bye_cached
          = (Ok Continue, Sample.bye_cached_after_any)) as Hpre by reflexivity.
  assert (cached_result Sample.cond_bye Sample.bye_cached_after_any = Some false)
    as Hc by reflexivity.
  destruct (cached_false_answers_true Sample.example_evaluator "@u2" None
              [Sample.cond_any] Sample.cond_bye [Sample.cond_unavailable]
              Sample.bye_cached Sample.bye_cached_after_any Hpre Hc) as [Hck _].
  exact (conj Hpre (conj Hc Hck)).
Defined.

(** The entries of [@u1] and [@u2] in the room whose one shared condition
    is true of the event. *)
Lemma evaluation_entry_is_first_match_witness :
  (action_for_event_by_user Sample.hello_event Sample.handler_all
     (fresh_heap Sample.plain_room)).1
  = Ok {[ "@u1" := [Sample.notify; Sample.sound] ]}
  ∧ ({[ "@u1" := [Sample.notify; Sample.sound] ]}
       : gmap string (list Action)) !! "@u2"
    = expected_entry (mkPushRuleEvaluatorForEvent Sample.hello_event 2)
        Sample.plain_visible (foldl display_name_step ∅ [Sample.member_event])
        ("@u2", [Sample.rule_mention; Sample.rule_quiet])
  ∧ expected_entry (mkPushRuleEvaluatorForEvent Sample.hello_event 2)
      Sample.plain_visible (foldl display_name_step ∅ [Sample.member_event])
      ("@u1", [Sample.rule_off; Sample.rule_hello; Sample.rule_all])
    = Some [Sample.notify; Sample.sound].
Proof.
  assert ((action_for_event_by_user Sample.hello_event Sample.handler_all
             (fresh_heap Sample.plain_room)).1
          = Ok {[ "@u1" := [Sample.notify; Sample.sound] ]})
    as Hres by (vm_compute; reflexivity).
  split; [done|]. split; [|vm_compute; reflexivity].
  apply (evaluation_entry_is_first_match Sample.hello_event Sample.handler_all
           (fresh_heap Sample.plain_room) Sample.plain_users_dict
           Sample.plain_visible [Sample.member_event]).
  - reflexivity.
  - vm_compute; reflexivity.
  - reflexivity.
  - intros uid Hin. change (uid ∈ ["@u1"; "@u2"]) in Hin.
    split_members; by eexists.
  - intros uid rules rule c Hitem Hrule Hen Hcond.
    change ((uid, rules) ∈ Sample.plain_rules) in Hitem.
    unfold Sample.plain_rules in Hitem.
    split_members; try discriminate; split; try reflexivity; intros Hk; by destruct Hk.
  - apply (bool_decide_unpack _). vm_compute. exact I.
  - right. left.
  - exact Hres.
Defined.

(** [@u1] has a stored row and is requested twice: the second pass finds
    the row decoded. *)
Lemma get_rules_decodes_rows_once_witness :
  bulk_get_push_rules Sample.example_store
    ([] ++ "@u1" :: ["@u2"] ++ "@u1" :: [])
  = Ok {[ "@u1" := [Sample.good_row] ]}
  ∧ ({[ "@u1" := [Sample.good_row] ]} : gmap string (list RawRule)) !! "@u1"
    = Some [Sample.good_row]
  ∧ is_ok (_get_rules "!room" ([] ++ "@u1" :: ["@u2"] ++ "@u1" :: [])
             Sample.example_store) = false
  ∧ _get_rules "!room" ["@u1"; "@u2"; "@u1"] Sample.example_store
    = Raise (TypeError "Expected String or Unicode").
Proof.
  assert (bulk_get_push_rules Sample.example_store
            ([] ++ "@u1" :: ["@u2"] ++ "@u1" :: [])
          = Ok {[ "@u1" := [Sample.good_row] ]}) as Hrows by reflexivity.
  assert (({[ "@u1" := [Sample.good_row] ]} : gmap string (list RawRule))
            !! "@u1" = Some [Sample.good_row]) as Hu by reflexivity.
  exact (conj Hrows (conj Hu
           (conj (get_rules_decodes_rows_once "!room" Sample.example_store _
                    [] "@u1" ["@u2"] [] Sample.good_row [] Hrows Hu)
                 eq_refl))).
Defined.
